(** * A shallow embedding of [app.py]: lead intake and the blog store.

    The Flask handlers are modelled as pure functions from the request
    (method, form fields, clock reading) and the database to a reply: the
    response object, the messages flashed into the session and the database
    after the request.  The third-party functions the handlers call
    (python-slugify, Markdown, bleach, SQLite's [datetime()]) are taken as
    the fields of a class, and the process-wide configuration as another. *)

From Stdlib Require Import ZArith NArith Lia.
From stdpp Require Import base decidable option numbers strings list sets gmap
  sorting.

Local Open Scope Z_scope.

(** ** Python strings *)

(** A Python [str] is a sequence of Unicode code points. *)
Abbreviation str := (list N) (only parsing).

Definition lit (s : string) : str :=
  List.map Ascii.N_of_ascii (String.list_ascii_of_string s).
Arguments lit s%_string.

(** [str.isspace] on one code point: the table of [_PyUnicode_IsWhitespace]. *)
Definition isspace (c : N) : bool :=
  (  ((0x09 <=? c) && (c <=? 0x0D))
  || ((0x1C <=? c) && (c <=? 0x20))
  || (c =? 0x85) || (c =? 0xA0) || (c =? 0x1680)
  || ((0x2000 <=? c) && (c <=? 0x200A))
  || (c =? 0x2028) || (c =? 0x2029) || (c =? 0x202F)
  || (c =? 0x205F) || (c =? 0x3000))%N.

Fixpoint lstrip (s : str) : str :=
  match s with
  | c :: r => if isspace c then lstrip r else s
  | [] => []
  end.

Definition rstrip (s : str) : str := rev (lstrip (rev s)).

(** [s.strip()] *)
Definition strip (s : str) : str := rstrip (lstrip s).

(** Truth value of a string: [bool(s)]. *)
Definition truthy (s : str) : bool :=
  match s with [] => false | _ :: _ => true end.

(** [a or b] on strings. *)
Definition py_or (a b : str) : str := if truthy a then a else b.

Fixpoint str_eqb (a b : str) : bool :=
  match a, b with
  | [], [] => true
  | x :: a', y :: b' => (x =? y)%N && str_eqb a' b'
  | _, _ => false
  end.

(** Binary (memcmp) order on text, as SQLite's default collation. *)
Fixpoint str_leb (a b : str) : bool :=
  match a, b with
  | [], _ => true
  | _ :: _, [] => false
  | x :: a', y :: b' => if (x <? y)%N then true
                        else if (y <? x)%N then false else str_leb a' b'
  end.

(** ** Requests *)

Inductive Method := GET | HEAD | POST.

Definition is_post (m : Method) : bool :=
  match m with POST => true | _ => false end.

(** [request.form]: a multi-dict, whose [get] answers the first value of a
    key.  The same type serves for the plain dicts handed to templates. *)
Abbreviation Form := (list (str * str)) (only parsing).

Definition form_lookup (f : Form) (k : str) : option str :=
  match List.find (fun kv => str_eqb (fst kv) k) f with
  | Some kv => Some (snd kv)
  | None => None
  end.

(** [request.form.get(k, default)] *)
Definition form_get (f : Form) (k : str) (default : str) : str :=
  match form_lookup f k with
  | Some v => v
  | None => default
  end.

(** ** The two tables *)

Module Lead.
Record t := mk {
  id : Z;
  full_name : str;
  email : str;
  phone : option str;
  address : str;
  property_type : option str;
  timeframe : option str;
  notes : option str;
  created_at : str;
}.
End Lead.

Module Post.
Record t := mk {
  id : Z;
  title : str;
  slug : str;
  summary : option str;
  content_md : str;
  content_html : str;
  cover_url : option str;
  published : Z;
  created_at : str;
  updated_at : str;
}.
End Post.

(** A table declared [INTEGER PRIMARY KEY AUTOINCREMENT] is its rows, in
    rowid order, and its entry in [sqlite_sequence]. *)
Record DB := mkDB {
  home_eval_leads : list Lead.t;
  home_eval_leads_seq : Z;
  posts : list Post.t;
  posts_seq : Z;
}.

(** [init_db] on a fresh file: both tables exist and are empty. *)
Definition init_db : DB := mkDB [] 0 [] 0.

Definition max_rowid (ids : list Z) : Z := foldr Z.max 0 ids.

(** The rowid AUTOINCREMENT picks: one more than the largest that the table
    holds or ever held. *)
Definition next_rowid (seq : Z) (ids : list Z) : Z :=
  Z.max seq (max_rowid ids) + 1.

(** The largest rowid of SQLite, 2^63 - 1. *)
Definition MAX_ROWID : Z := 9223372036854775807.

(** An AUTOINCREMENT table refuses every INSERT (SQLITE_FULL) once its
    largest rowid has been used. *)
Definition rowid_exhausted (seq : Z) (ids : list Z) : bool :=
  MAX_ROWID <=? Z.max seq (max_rowid ids).

(** The integers that [sqlite3] binds to a statement and SQLite stores:
    64 bits, signed.  (Binding a larger Python [int] raises OverflowError;
    the handlers are modelled on the ids that can be bound.) *)
Definition sqlite_integer (n : Z) : Prop := - MAX_ROWID - 1 ≤ n ≤ MAX_ROWID.

(** Exceptions that escape a view. *)
Inductive Exn :=
  | IntegrityError   (* sqlite3.IntegrityError: UNIQUE constraint failed *)
  | OperationalError (* sqlite3.OperationalError: database or disk is full *)
  | NameError.       (* a global that was never bound *)

(** SQL [INSERT INTO home_eval_leads (...) VALUES (...)].  Every NOT NULL
    column receives a string, and the table has no other constraint; the
    statement is refused only when no rowid is left. *)
Definition insert_lead (db : DB)
    (full_name email phone address property_type timeframe notes : str)
    (created_at : str) : Exn + DB :=
  if rowid_exhausted (home_eval_leads_seq db)
                     (List.map Lead.id (home_eval_leads db))
  then inl OperationalError
  else
    let rowid := next_rowid (home_eval_leads_seq db)
                            (List.map Lead.id (home_eval_leads db)) in
    inr {| home_eval_leads :=
             home_eval_leads db ++
             [Lead.mk rowid full_name email (Some phone) address
                      (Some property_type) (Some timeframe) (Some notes)
                      created_at];
           home_eval_leads_seq := rowid;
           posts := posts db;
           posts_seq := posts_seq db |}.

Definition slug_taken (slug : str) (rows : list Post.t) : bool :=
  existsb (fun p => str_eqb (Post.slug p) slug) rows.

(** SQL [INSERT INTO posts (...) VALUES (...)]: refused when no rowid is
    left, which SQLite finds out first, and when the slug is already the
    slug of a row ([slug TEXT NOT NULL UNIQUE]). *)
Definition insert_post (db : DB)
    (title slug summary content_md content_html cover_url : str)
    (published : Z) (created_at updated_at : str) : Exn + DB :=
  if rowid_exhausted (posts_seq db) (List.map Post.id (posts db))
  then inl OperationalError
  else if slug_taken slug (posts db) then inl IntegrityError
  else
    let rowid := next_rowid (posts_seq db) (List.map Post.id (posts db)) in
    inr {| home_eval_leads := home_eval_leads db;
           home_eval_leads_seq := home_eval_leads_seq db;
           posts :=
             posts db ++
             [Post.mk rowid title slug (Some summary) content_md content_html
                      (Some cover_url) published created_at updated_at];
           posts_seq := rowid |}.

(** The assignment list of the UPDATE in [admin_blog_edit], on one row. *)
Definition set_post
    (title slug summary content_md content_html cover_url : str)
    (published : Z) (updated_at : str) (p : Post.t) : Post.t :=
  {| Post.id := Post.id p;
     Post.title := title;
     Post.slug := slug;
     Post.summary := Some summary;
     Post.content_md := content_md;
     Post.content_html := content_html;
     Post.cover_url := Some cover_url;
     Post.published := published;
     Post.created_at := Post.created_at p;
     Post.updated_at := updated_at |}.

(** SQL [UPDATE posts SET ... WHERE id=?]: refused when a row is updated
    and another row already has the new slug. *)
Definition update_post (db : DB) (post_id : Z)
    (title slug summary content_md content_html cover_url : str)
    (published : Z) (updated_at : str) : Exn + DB :=
  if existsb (fun p => Post.id p =? post_id) (posts db)
     && existsb (fun p => negb (Post.id p =? post_id)
                          && str_eqb (Post.slug p) slug) (posts db)
  then inl IntegrityError
  else
    inr {| home_eval_leads := home_eval_leads db;
           home_eval_leads_seq := home_eval_leads_seq db;
           posts :=
             List.map (fun p => if Post.id p =? post_id
                                then set_post title slug summary content_md
                                              content_html cover_url published
                                              updated_at p
                                else p) (posts db);
           posts_seq := posts_seq db |}.

(** ** Query results *)

(** [SELECT id, title, slug, summary, cover_url, created_at] *)
Module Listing.
Record t := mk {
  id : Z;
  title : str;
  slug : str;
  summary : option str;
  cover_url : option str;
  created_at : str;
}.
End Listing.

(** [SELECT id, title, slug, summary, content_md, content_html, cover_url,
    created_at] *)
Module Detail.
Record t := mk {
  id : Z;
  title : str;
  slug : str;
  summary : option str;
  content_md : str;
  content_html : str;
  cover_url : option str;
  created_at : str;
}.
End Detail.

Definition listing_of (p : Post.t) : Listing.t :=
  Listing.mk (Post.id p) (Post.title p) (Post.slug p) (Post.summary p)
             (Post.cover_url p) (Post.created_at p).

Definition detail_of (p : Post.t) : Detail.t :=
  Detail.mk (Post.id p) (Post.title p) (Post.slug p) (Post.summary p)
            (Post.content_md p) (Post.content_html p) (Post.cover_url p)
            (Post.created_at p).

(** [WHERE published = 1] *)
Definition is_published (p : Post.t) : bool := Post.published p =? 1.

(** Order of two SQL values that are NULL or text: NULL sorts first, text
    is compared bytewise. *)
Definition sql_leb (a b : option str) : bool :=
  match a, b with
  | None, _ => true
  | Some _, None => false
  | Some x, Some y => str_leb x y
  end.

Section OrderBy.
Context {A : Type} (key : A → option str).

Fixpoint insert_desc (x : A) (l : list A) : list A :=
  match l with
  | [] => [x]
  | y :: l' => if sql_leb (key y) (key x) then x :: l
               else y :: insert_desc x l'
  end.

(** [ORDER BY key DESC]; rows with equal keys keep their rowid order
    (SQLite promises no order among them). *)
Definition order_by_desc (l : list A) : list A := foldr insert_desc [] l.
End OrderBy.

(** ** Responses *)

(** [url_for(endpoint, **values)] *)
Inductive Url :=
  | UrlSchedule (name email : str)
  | UrlBlogPost (slug : str)
  | UrlAdminBlogEdit (post_id : Z).

Inductive Mode := ModeNew | ModeEdit.

(** What a template receives as [form]: a dict or multi-dict, or a row. *)
Inductive FormArg :=
  | FormDict (f : Form)
  | FormRow (row : Post.t).

(** [render_template(name, **context)] *)
Inductive Page :=
  | HomeEvaluationPage (form : Form)
  | BlogIndexPage (posts : list Listing.t)
  | BlogPostPage (post : Detail.t) (content_html : str) (edit_url : Url)
  | AdminPostEditPage (form : FormArg) (mode : Mode) (post : option Post.t)
  | NotFoundPage.

Inductive Response :=
  | Render (page : Page) (status : Z)
  | Redirect (location : Url)
  | Abort (status : Z)
  | ReturnNone               (* the view fell off its end *)
  | Raise (e : Exn).

Record Reply := mkReply {
  response : Response;
  flashed : list str;
  db_after : DB;
}.

(** ** Tags of an HTML text *)

(** The name a tag-open [<] is followed by, as the HTML tokenizer reads it:
    an ASCII letter, then everything up to white space, [/] or [>], in
    lower case.  Empty when no tag starts here. *)
Definition is_alpha (c : N) : bool :=
  (((0x41 <=? c) && (c <=? 0x5A)) || ((0x61 <=? c) && (c <=? 0x7A)))%N.

Definition lower (c : N) : N :=
  if ((0x41 <=? c) && (c <=? 0x5A))%N then (c + 0x20)%N else c.

Definition ends_name (c : N) : bool :=
  ((c =? 0x09) || (c =? 0x0A) || (c =? 0x0C) || (c =? 0x0D) || (c =? 0x20)
   || (c =? 0x2F) || (c =? 0x3E))%N.

Fixpoint name_chars (s : str) : str :=
  match s with
  | c :: r => if ends_name c then [] else lower c :: name_chars r
  | [] => []
  end.

Definition tag_name (s : str) : str :=
  let s := match s with
           | c :: r => if (c =? 0x2F)%N then r else s
           | [] => []
           end in
  match s with
  | c :: _ => if is_alpha c then name_chars s else []
  | [] => []
  end.

(** The names of all start and end tags of a text. *)
Fixpoint tag_names (html : str) : list str :=
  match html with
  | [] => []
  | c :: r =>
      (if (c =? 0x3C)%N
       then match tag_name r with [] => [] | n => [n] end
       else []) ++ tag_names r
  end.

Definition has_tag (name html : str) : Prop := name ∈ tag_names html.

(** ** Third-party functions and configuration *)

Class Libraries := {
  (** [slugify.slugify] *)
  slugify : str → str;
  (** [markdown.markdown(text, extensions=...)] *)
  md_markdown : str → list str → str;
  (** [bleach.sanitizer.ALLOWED_TAGS] *)
  bleach_ALLOWED_TAGS : gset str;
  (** [bleach.clean(text, tags=..., attributes=...)] *)
  bleach_clean : str → gset str → list (str * list str) → str;
  (** SQLite's [datetime(text)]: NULL when the text is no time value *)
  sqlite_datetime : str → option str;
}.

Class Settings := {
  (** Bound only when [dotenv] could be imported at start-up. *)
  ADMIN_PASSWORD : option str;
}.

(** ** The handlers *)

Section App.
Context {L : Libraries} {S : Settings}.

Definition check_admin (pw : str) : Exn + bool :=
  match ADMIN_PASSWORD with
  | Some admin => inr (str_eqb pw admin)
  | None => inl NameError
  end.

Definition allowed_tags : gset str :=
  bleach_ALLOWED_TAGS ∪
  {[ lit "p"; lit "img"; lit "h1"; lit "h2"; lit "h3"; lit "h4"; lit "pre";
     lit "code"; lit "table"; lit "thead"; lit "tbody"; lit "tr"; lit "th";
     lit "td"; lit "hr"; lit "br" ]}.

Definition allowed_attrs : list (str * list str) :=
  [ (lit "a", [lit "href"; lit "title"; lit "rel"; lit "target"]);
    (lit "img", [lit "src"; lit "alt"; lit "title"]);
    (lit "code", [lit "class"]) ].

Definition render_markdown (md_text : str) : str :=
  let html := md_markdown md_text
                [lit "extra"; lit "tables"; lit "fenced_code"] in
  bleach_clean html allowed_tags allowed_attrs.

(** The dict [data] of [home_evaluation]. *)
Definition lead_data (form : Form) : Form :=
  [ (lit "full_name", strip (form_get form (lit "full_name") []));
    (lit "email", strip (form_get form (lit "email") []));
    (lit "phone", strip (form_get form (lit "phone") []));
    (lit "address", strip (form_get form (lit "address") []));
    (lit "property_type", strip (form_get form (lit "property_type") []));
    (lit "timeframe", strip (form_get form (lit "timeframe") []));
    (lit "notes", strip (form_get form (lit "notes") [])) ].

(** [/home-evaluation]; [now] is [datetime.utcnow().isoformat()]. *)
Definition home_evaluation (method : Method) (form : Form) (now : str)
    (db : DB) : Reply :=
  if is_post method then
    let data := lead_data form in
    let get k := form_get data k [] in
    if negb (truthy (get (lit "full_name")))
       || negb (truthy (get (lit "email")))
       || negb (truthy (get (lit "address")))
    then
      mkReply (Render (HomeEvaluationPage data) 200)
              [lit "Name, email, and property address are required."] db
    else
      match insert_lead db (get (lit "full_name")) (get (lit "email"))
              (get (lit "phone")) (get (lit "address"))
              (get (lit "property_type")) (get (lit "timeframe"))
              (get (lit "notes")) now with
      | inl e => mkReply (Raise e) [] db
      | inr db' =>
          mkReply (Redirect (UrlSchedule (get (lit "full_name"))
                                         (get (lit "email")))) [] db'
      end
  else
    mkReply (Render (HomeEvaluationPage []) 200) [] db.

(** [/blog] *)
Definition blog_index (db : DB) : Response :=
  let rows :=
    order_by_desc (fun p => sqlite_datetime (Post.created_at p))
                  (List.filter is_published (posts db)) in
  Render (BlogIndexPage (List.map listing_of rows)) 200.

(** The query of [blog_post]: [WHERE slug = ? AND published = 1 LIMIT 1]. *)
Definition select_published (db : DB) (slug : str) : option Detail.t :=
  option_map detail_of
    (List.find (fun p => str_eqb (Post.slug p) slug && is_published p)
               (posts db)).

(** [/blog/<slug>] *)
Definition blog_post (db : DB) (slug : str) : Response :=
  match select_published db slug with
  | None => Abort 404
  | Some post =>
      let html := strip (py_or (Detail.content_html post) []) in
      if negb (truthy html) && truthy (Detail.content_md post) then
        let html := render_markdown (Detail.content_md post) in
        let edit_url := UrlAdminBlogEdit (Detail.id post) in
        Render (BlogPostPage post html edit_url) 200
      else ReturnNone
  end.

(** [1 if request.form.get("published") == "on" else 0] *)
Definition published_flag (form : Form) : Z :=
  match form_lookup form (lit "published") with
  | Some v => if str_eqb v (lit "on") then 1 else 0
  | None => 0
  end.

(** [/admin/blog/new] *)
Definition admin_blog_new (method : Method) (form : Form) (now : str)
    (db : DB) : Reply :=
  if is_post method then
    match check_admin (form_get form (lit "password") []) with
    | inl e => mkReply (Raise e) [] db
    | inr false =>
        mkReply (Render (AdminPostEditPage (FormDict form) ModeNew None) 200)
                [lit "Invalid admin password."] db
    | inr true =>
        let title := strip (form_get form (lit "title") []) in
        let summary := strip (form_get form (lit "summary") []) in
        let content_md := strip (form_get form (lit "content_md") []) in
        let cover_url := strip (form_get form (lit "cover_url") []) in
        let published := published_flag form in
        if negb (truthy title) || negb (truthy content_md) then
          mkReply
            (Render (AdminPostEditPage (FormDict form) ModeNew None) 200)
            [lit "Title and content are required."] db
        else
          let slug := slugify title in
          let content_html := render_markdown content_md in
          match insert_post db title slug summary content_md content_html
                            cover_url published now now with
          | inl e => mkReply (Raise e) [] db
          | inr db' => mkReply (Redirect (UrlBlogPost slug)) [] db'
          end
    end
  else
    mkReply (Render (AdminPostEditPage (FormDict []) ModeNew None) 200) [] db.

(** [SELECT * FROM posts WHERE id=?], first row, for a [post_id] that is a
    [sqlite_integer], as every stored id is.  (The statement cannot be
    run with a larger one: binding it raises OverflowError.) *)
Definition select_by_id (db : DB) (post_id : Z) : option Post.t :=
  List.find (fun p => Post.id p =? post_id) (posts db).

(** [/admin/blog/<int:post_id>/edit], for a [post_id] that is a
    [sqlite_integer].  The route converter lets larger ones through, and
    for them the SELECT that opens the handler raises OverflowError; what
    is stated of an id that need not be stored assumes [sqlite_integer]. *)
Definition admin_blog_edit (post_id : Z) (method : Method) (form : Form)
    (now : str) (db : DB) : Reply :=
  match select_by_id db post_id with
  | None => mkReply (Render NotFoundPage 404) [] db
  | Some row =>
      if is_post method then
        match check_admin (form_get form (lit "password") []) with
        | inl e => mkReply (Raise e) [] db
        | inr false =>
            mkReply
              (Render (AdminPostEditPage (FormDict form) ModeEdit (Some row))
                      200)
              [lit "Invalid admin password."] db
        | inr true =>
            let title := strip (form_get form (lit "title") []) in
            let summary := strip (form_get form (lit "summary") []) in
            let content_md := strip (form_get form (lit "content_md") []) in
            let cover_url := strip (form_get form (lit "cover_url") []) in
            let published := published_flag form in
            let slug := slugify title in
            let content_html := render_markdown content_md in
            match update_post db post_id title slug summary content_md
                              content_html cover_url published now with
            | inl e => mkReply (Raise e) [] db
            | inr db' => mkReply (Redirect (UrlBlogPost slug)) [] db'
            end
        end
      else
        mkReply
          (Render (AdminPostEditPage (FormRow row) ModeEdit (Some row)) 200)
          [] db
  end.

End App.

(** ** Schema constraints *)

(** [PRIMARY KEY] on both tables and [UNIQUE] on [posts.slug]. *)
Definition db_ok (db : DB) : Prop :=
  NoDup (Post.id <$> posts db)
  ∧ NoDup (Post.slug <$> posts db)
  ∧ NoDup (Lead.id <$> home_eval_leads db).

#[global] Instance db_ok_dec (db : DB) : Decision (db_ok db).
Proof. unfold db_ok. apply _. Defined.

(** The reply is the edit form together with a flashed message. *)
Definition edit_form_with_error (r : Reply) : Prop :=
  ∃ form mode post msg,
    response r = Render (AdminPostEditPage form mode post) 200
    ∧ flashed r = [msg].

(** What [render_markdown] relies on [bleach.clean] for: called with the
    two allow-lists of [render_markdown], it returns a text all of whose
    tags are on [allowed_tags]. *)
Definition bleach_honours_allowed_tags {L : Libraries} : Prop :=
  ∀ html name,
    has_tag name (bleach_clean html allowed_tags allowed_attrs) →
    name ∈ allowed_tags.

(** ** Stand-ins for the libraries, to run the handlers on concrete requests *)

Module Sample.

Definition hyphenate (c : N) : N :=
  if is_alpha c || ((0x30 <=? c) && (c <=? 0x39))%N then lower c else 0x2D%N.

Fixpoint escape (s : str) : str :=
  match s with
  | [] => []
  | c :: r => (if (c =? 0x3C)%N then lit "&lt;"
               else if (c =? 0x3E)%N then lit "&gt;" else [c]) ++ escape r
  end.

Definition libraries : Libraries := {|
  slugify := List.map hyphenate;
  md_markdown := fun text _ => lit "<p>" ++ text ++ lit "</p>";
  bleach_ALLOWED_TAGS :=
    {[ lit "a"; lit "abbr"; lit "acronym"; lit "b"; lit "blockquote";
       lit "code"; lit "em"; lit "i"; lit "li"; lit "ol"; lit "strong";
       lit "ul" ]};
  bleach_clean := fun html _ _ => escape html;
  sqlite_datetime := Some;
|}.

Definition settings : Settings := {| ADMIN_PASSWORD := Some (lit "changeme") |}.

Definition post1 : Post.t :=
  Post.mk 1 (lit "Open house") (lit "open-house") (Some []) (lit "Sunday.")
          (lit "<p>Sunday.</p>") (Some []) 1 (lit "2024-05-01T09:00:00")
          (lit "2024-05-01T09:00:00").

Definition draft2 : Post.t :=
  Post.mk 2 (lit "Draft") (lit "draft") (Some []) (lit "Later.") []
          (Some []) 0 (lit "2024-05-02T09:00:00") (lit "2024-05-02T09:00:00").

(** A published row whose stored HTML is blank. *)
Definition legacy3 : Post.t :=
  Post.mk 3 (lit "Market notes") (lit "market-notes") None
          (lit "Prices *rose*.") (lit "  ") None 1
          (lit "2024-04-01T09:00:00") (lit "2024-04-01T09:00:00").

Definition db1 : DB := mkDB [] 0 [post1; draft2; legacy3] 3.

Definition now : str := lit "2024-06-01T12:00:00".

Definition new_post_form : Form :=
  [ (lit "password", lit "changeme"); (lit "title", lit " Spring listings ");
    (lit "summary", lit "What is new");
    (lit "content_md", lit "<script>x</script> Hello");
    (lit "published", lit "on") ].

Definition wrong_password_form : Form :=
  [ (lit "password", lit "guess"); (lit "title", lit "Spring listings");
    (lit "content_md", lit "Hello") ].

Definition blank_title_form : Form :=
  [ (lit "password", lit "changeme"); (lit "title", lit "   ");
    (lit "content_md", lit "New text") ].

End Sample.

(** A second stand-in, whose sanitiser goes by its allow-list: the [<] of a
    tag on the list is kept, every other [<] is escaped. *)
Module Filtering.

Fixpoint clean (tags : gset str) (html : str) : str :=
  match html with
  | [] => []
  | c :: r =>
      (if (c =? 0x3C)%N
       then (if bool_decide (tag_name r ∈ tags) then [c] else lit "&lt;")
       else [c]) ++ clean tags r
  end.

Definition libraries : Libraries := {|
  slugify := List.map Sample.hyphenate;
  md_markdown := fun text _ => text;
  bleach_ALLOWED_TAGS :=
    {[ lit "a"; lit "abbr"; lit "acronym"; lit "b"; lit "blockquote";
       lit "code"; lit "em"; lit "i"; lit "li"; lit "ol"; lit "strong";
       lit "ul" ]};
  bleach_clean := fun html tags _ => clean tags html;
  sqlite_datetime := Some;
|}.

End Filtering.

(** ** Vocabulary of the statements *)

(** The keys of the dict [data]. *)
Definition lead_fields : list str :=
  [ lit "full_name"; lit "email"; lit "phone"; lit "address";
    lit "property_type"; lit "timeframe"; lit "notes" ].

(** A form field as the handlers read it: [request.form.get(k,"").strip()]. *)
Definition submitted (form : Form) (k : string) : str :=
  strip (form_get form (lit k) []).

(** The derived columns of a row agree with its source columns. *)
Definition derived_from_source {L : Libraries} (p : Post.t) : Prop :=
  Post.slug p = slugify (Post.title p)
  ∧ Post.content_html p = render_markdown (Post.content_md p).

(** A row as a save of [form] writes it, leaving aside [id], [created_at]
    and [updated_at]. *)
Definition saved_from {L : Libraries} (form : Form) (p : Post.t) : Prop :=
  Post.title p = submitted form "title"
  ∧ Post.slug p = slugify (submitted form "title")
  ∧ Post.summary p = Some (submitted form "summary")
  ∧ Post.content_md p = submitted form "content_md"
  ∧ Post.content_html p = render_markdown (submitted form "content_md")
  ∧ Post.cover_url p = Some (submitted form "cover_url")
  ∧ Post.published p = published_flag form.

(** The INSERT of [admin_blog_new] and the UPDATE of [admin_blog_edit] on
    the values read off [form]. *)
Definition insert_submitted {L : Libraries} (form : Form) (now : str) (db : DB)
    : Exn + DB :=
  insert_post db (submitted form "title") (slugify (submitted form "title"))
    (submitted form "summary") (submitted form "content_md")
    (render_markdown (submitted form "content_md"))
    (submitted form "cover_url") (published_flag form) now now.

Definition set_submitted {L : Libraries} (form : Form) (now : str)
    : Post.t → Post.t :=
  set_post (submitted form "title") (slugify (submitted form "title"))
    (submitted form "summary") (submitted form "content_md")
    (render_markdown (submitted form "content_md"))
    (submitted form "cover_url") (published_flag form) now.

(** The row function of the UPDATE. *)
Definition edit_row {L : Libraries} (post_id : Z) (form : Form) (now : str)
    (q : Post.t) : Post.t :=
  if Post.id q =? post_id then set_submitted form now q else q.

Definition update_submitted {L : Libraries} (post_id : Z) (form : Form)
    (now : str) (db : DB) : Exn + DB :=
  update_post db post_id (submitted form "title")
    (slugify (submitted form "title"))
    (submitted form "summary") (submitted form "content_md")
    (render_markdown (submitted form "content_md"))
    (submitted form "cover_url") (published_flag form) now.

(** ** The scheduling page *)

(** One code point under [str.encode("utf-8")] with strict errors; [None]
    stands for UnicodeEncodeError (a surrogate, or no code point at all). *)
Definition utf8_encode_char (c : N) : option (list N) :=
  (if c <? 0x80 then Some [c]
   else if c <? 0x800 then
     Some [N.lor 0xC0 (N.shiftr c 6); N.lor 0x80 (N.land c 0x3F)]
   else if c <? 0x10000 then
     if (0xD800 <=? c) && (c <=? 0xDFFF) then None
     else Some [N.lor 0xE0 (N.shiftr c 12);
                N.lor 0x80 (N.land (N.shiftr c 6) 0x3F);
                N.lor 0x80 (N.land c 0x3F)]
   else if c <? 0x110000 then
     Some [N.lor 0xF0 (N.shiftr c 18);
           N.lor 0x80 (N.land (N.shiftr c 12) 0x3F);
           N.lor 0x80 (N.land (N.shiftr c 6) 0x3F);
           N.lor 0x80 (N.land c 0x3F)]
   else None)%N.

Fixpoint utf8_encode (s : str) : option (list N) :=
  match s with
  | [] => Some []
  | c :: r =>
      match utf8_encode_char c, utf8_encode r with
      | Some bs, Some rest => Some (bs ++ rest)
      | _, _ => None
      end
  end.

(** The bytes [urllib.parse] never quotes: letters, digits and [_.-~]. *)
Definition always_safe (b : N) : bool :=
  (is_alpha b || ((0x30 <=? b) && (b <=? 0x39))
   || (b =? 0x5F) || (b =? 0x2E) || (b =? 0x2D) || (b =? 0x7E))%N.

(** One digit of ["%02X"]. *)
Definition hex_digit (n : N) : N :=
  (if n <? 10 then 0x30 + n else 0x41 + (n - 10))%N.

(** What [quote_plus] makes of one byte: kept when safe, [+] for a space
    (quoted as itself, then replaced), [%XX] otherwise. *)
Definition quote_byte (b : N) : str :=
  if always_safe b then [b]
  else if (b =? 0x20)%N then [0x2B%N]
  else [0x25%N; hex_digit (b / 16); hex_digit (b mod 16)].

(** [urllib.parse.quote_plus(s)] *)
Definition quote_plus (s : str) : option str :=
  match utf8_encode s with
  | Some bs => Some (flat_map quote_byte bs)
  | None => None
  end.

(** [sep.join(parts)] *)
Fixpoint join (sep : str) (parts : list str) : str :=
  match parts with
  | [] => []
  | [x] => x
  | x :: rest => x ++ sep ++ join sep rest
  end.

Fixpoint lstrip_slash (s : str) : str :=
  match s with
  | c :: r => if (c =? 0x2F)%N then lstrip_slash r else s
  | [] => []
  end.

(** [s.rstrip("/")] *)
Definition rstrip_slash (s : str) : str := rev (lstrip_slash (rev s)).

Definition default_scheduler_url : str :=
  lit "https://calendly.com/jared-jaredmclinden/home-evaluation".

(** The global [SCHEDULER_URL], from [os.environ.get("SCHEDULER_URL", "")]. *)
Definition scheduler_url (env : option str) : str :=
  let url := rstrip_slash (strip (match env with Some v => v | None => [] end)) in
  if truthy url then url else default_scheduler_url.

(** [(request.args.get(k) or "").strip()] *)
Definition arg_stripped (args : Form) (k : str) : str :=
  strip (match form_lookup args k with
         | Some v => py_or v []
         | None => []
         end).

(** The dict [params] of [schedule], in insertion order. *)
Definition schedule_params (name email : str) : Form :=
  [ (lit "hide_gdpr_banner", lit "1");
    (lit "hide_event_type_details", lit "1");
    (lit "background_color", lit "F7F7F7");
    (lit "text_color", lit "111827");
    (lit "primary_color", lit "2563EB") ]
  ++ (if truthy name then [(lit "name", name)] else [])
  ++ (if truthy email then [(lit "email", email)] else []).

(** [f"{k}={quote_plus(v)}"] for every item, or [None] when one raises. *)
Fixpoint query_items (params : Form) : option (list str) :=
  match params with
  | [] => Some []
  | (k, v) :: rest =>
      match quote_plus v, query_items rest with
      | Some q, Some items => Some ((k ++ lit "=" ++ q) :: items)
      | _, _ => None
      end
  end.

(** The [calendly_embed_url] that [schedule] builds, or [None] when
    [quote_plus] raises UnicodeEncodeError. *)
Definition calendly_embed_url (SCHEDULER_URL : str) (args : Form)
    : option str :=
  let name := arg_stripped args (lit "name") in
  let email := arg_stripped args (lit "email") in
  match query_items (schedule_params name email) with
  | Some items =>
      let query := join (lit "&") items in
      let sep := if existsb (N.eqb 0x3F) SCHEDULER_URL
                 then lit "&" else lit "?" in
      Some (SCHEDULER_URL ++ sep ++ query)
  | None => None
  end.

(** [repr] and [sys.stdout], which the two debugging lines of [schedule]
    go through. *)
Class Console := {
  (** [repr(s)] of a [str] *)
  py_repr : str → str;
  (** whether [sys.stdout.write(text)] returns: it raises
      UnicodeEncodeError on a code point that the stream's encoding lacks,
      and ValueError or OSError on a stream that is closed or broken *)
  stdout_write : str → bool;
}.

(** What [print] writes for its arguments: each of them, with a space
    between two. *)
Fixpoint separated (objects : list str) : list str :=
  match objects with
  | [] => []
  | [x] => [x]
  | x :: rest => x :: lit " " :: separated rest
  end.

(** [print] of strings: every argument, every separator and the final
    newline is one write; [false] when a write raises. *)
Definition py_print {C : Console} (objects : list str) : bool :=
  forallb stdout_write (separated objects ++ [[0x0A%N]]).

(** [/schedule]: the [calendly_embed_url] that [schedule.html] is rendered
    with, or [None] when [quote_plus] or one of the two [print] calls
    raises. *)
Definition schedule {C : Console} (SCHEDULER_URL : str) (args : Form)
    : option str :=
  match calendly_embed_url SCHEDULER_URL args with
  | Some url =>
      if py_print [lit "DEBUG SCHEDULER_URL ="; py_repr SCHEDULER_URL] then
        if py_print [lit "DEBUG EMBED URL     ="; url] then Some url
        else None
      else None
  | None => None
  end.

(** The query arguments that the redirect [url_for("schedule", ...)] hands
    to [schedule]. *)
Definition redirect_args (u : Url) : Form :=
  match u with
  | UrlSchedule name email => [(lit "name", name); (lit "email", email)]
  | _ => []
  end.

(** ** The home page *)

(** [SELECT title, slug, summary, cover_url, created_at] *)
Module Latest.
Record t := mk {
  title : str;
  slug : str;
  summary : option str;
  cover_url : option str;
  created_at : str;
}.
End Latest.

Definition latest_of (p : Post.t) : Latest.t :=
  Latest.mk (Post.title p) (Post.slug p) (Post.summary p) (Post.cover_url p)
            (Post.created_at p).

(** The rows of [WHERE published=1 ORDER BY created_at DESC], before the
    [LIMIT]. *)
Definition published_newest_first (db : DB) : list Post.t :=
  order_by_desc (fun p => Some (Post.created_at p))
                (List.filter is_published (posts db)).

(** [/]: the [latest_posts] that [index.html] is rendered with. *)
Definition home (db : DB) : list Latest.t :=
  List.map latest_of (firstn 3 (published_newest_first db)).

(** ** Requests in sequence *)

(** The requests that can write: one per route with a POST branch. *)
Inductive Request :=
  | ToHomeEvaluation (method : Method) (form : Form)
  | ToAdminBlogNew (method : Method) (form : Form)
  | ToAdminBlogEdit (post_id : Z) (method : Method) (form : Form).

(** Flask's dispatch of a request to its view; [now] is the clock reading. *)
Definition dispatch {L : Libraries} {S : Settings} (req : Request) (now : str)
    (db : DB) : Reply :=
  match req with
  | ToHomeEvaluation method form => home_evaluation method form now db
  | ToAdminBlogNew method form => admin_blog_new method form now db
  | ToAdminBlogEdit post_id method form =>
      admin_blog_edit post_id method form now db
  end.

(** The database after a sequence of requests, each with its clock reading. *)
Fixpoint serve {L : Libraries} {S : Settings} (reqs : list (Request * str))
    (db : DB) : DB :=
  match reqs with
  | [] => db
  | (req, now) :: rest => serve rest (db_after (dispatch req now db))
  end.

(** A lead as the form lets it in: name, email and address are not empty,
    and no field has white space at either end. *)
Definition lead_ok (l : Lead.t) : Prop :=
  Lead.full_name l ≠ [] ∧ Lead.email l ≠ [] ∧ Lead.address l ≠ []
  ∧ strip (Lead.full_name l) = Lead.full_name l
  ∧ strip (Lead.email l) = Lead.email l
  ∧ strip (Lead.address l) = Lead.address l.

(** Row ids are positive and not above the table's [sqlite_sequence]. *)
Definition ids_in_sequence (db : DB) : Prop :=
  Forall (fun p => 1 ≤ Post.id p ≤ posts_seq db) (posts db)
  ∧ Forall (fun l => 1 ≤ Lead.id l ≤ home_eval_leads_seq db)
           (home_eval_leads db)
  ∧ 0 ≤ posts_seq db ∧ 0 ≤ home_eval_leads_seq db.

(** The characters a quoted value is made of. *)
Definition quoted_char (c : N) : bool :=
  (always_safe c || (c =? 0x2B) || (c =? 0x25))%N.

Definition count_char (c : N) (s : str) : nat :=
  length (List.filter (N.eqb c) s).

(** Code points that UTF-8 can encode: Unicode scalar values. *)
Definition scalar_value (c : N) : bool :=
  ((c <? 0xD800) || ((0xDFFF <? c) && (c <? 0x110000)))%N.

(** No white space at the start of a string. *)
Definition clean_start (s : str) : Prop :=
  match s with
  | c :: _ => isspace c = false
  | [] => True
  end.

(** What every database built by the handlers satisfies. *)
Definition consistent {L : Libraries} (db : DB) : Prop :=
  db_ok db
  ∧ ids_in_sequence db
  ∧ Forall derived_from_source (posts db)
  ∧ Forall lead_ok (home_eval_leads db).

(** [a] comes before [b] under [ORDER BY key DESC]. *)
Definition not_older {A} (key : A → option str) (a b : A) : Prop :=
  sql_leb (key b) (key a) = true.

Definition request_method (req : Request) : Method :=
  match req with
  | ToHomeEvaluation method _ => method
  | ToAdminBlogNew method _ => method
  | ToAdminBlogEdit _ method _ => method
  end.

(** What a request must carry for its handler to reach its write. *)
Definition may_write {S : Settings} (req : Request) : Prop :=
  match req with
  | ToHomeEvaluation _ form =>
      submitted form "full_name" ≠ [] ∧ submitted form "email" ≠ []
      ∧ submitted form "address" ≠ []
  | ToAdminBlogNew _ form | ToAdminBlogEdit _ _ form =>
      ADMIN_PASSWORD = Some (form_get form (lit "password") [])
  end.

(** The columns of a post that no statement of the application assigns
    after the INSERT. *)
Definition birth (p : Post.t) : Z * str := (Post.id p, Post.created_at p).

(** ** Further concrete data *)

Module Scenario.

(** A process started without [dotenv]: the password was never bound. *)
Definition unconfigured : Settings := {| ADMIN_PASSWORD := None |}.

Definition lead_form : Form :=
  [ (lit "full_name", lit " Ann Lee "); (lit "email", lit "ann@example.org");
    (lit "address", lit "1 Main St"); (lit "notes", lit "call me") ].

Definition served : list (Request * str) :=
  [ (ToHomeEvaluation POST lead_form, lit "2024-06-01T10:00:00");
    (ToAdminBlogNew POST Sample.new_post_form, lit "2024-06-01T11:00:00");
    (ToAdminBlogEdit 1 POST Sample.blank_title_form,
     lit "2024-06-01T12:00:00") ].

(** An edit that renames a post to the title of another post. *)
Definition rename_to_draft_form : Form :=
  [ (lit "password", lit "changeme"); (lit "title", lit "Draft");
    (lit "content_md", lit "Sunday.") ].

(** An edit that keeps the title and changes the text. *)
Definition same_title_form : Form :=
  [ (lit "password", lit "changeme"); (lit "title", lit "Open house");
    (lit "content_md", lit "Saturday."); (lit "published", lit "on") ].

Definition blank_content_form : Form :=
  [ (lit "password", lit "changeme"); (lit "title", lit "Notes");
    (lit "content_md", lit "  ") ].

Definition schedule_args : Form :=
  [ (lit "name", lit " Ann & Lee "); (lit "email", lit "ann@example.org") ].

(** A standard output that encodes ASCII only, and [repr] as it is on a
    text of letters, digits and URL punctuation: in single quotes. *)
Definition console : Console :=
  {| py_repr := fun s => lit "'" ++ s ++ lit "'";
     stdout_write := forallb (fun c => (c <? 0x80)%N) |}.

End Scenario.

(** The query string of the five fixed display parameters. *)
Definition fixed_query : str :=
  lit "hide_gdpr_banner=1&hide_event_type_details=1"
  ++ lit "&background_color=F7F7F7&text_color=111827&primary_color=2563EB".

(** ["&" if "?" in SCHEDULER_URL else "?"] *)
Definition query_separator (SCHEDULER_URL : str) : str :=
  if existsb (N.eqb 0x3F) SCHEDULER_URL then lit "&" else lit "?".

(** ["&k=" + quote_plus(v)] when [v] is not empty. *)
Definition optional_item (k : string) (v quoted : str) : str :=
  if truthy v then lit "&" ++ lit k ++ lit "=" ++ quoted else [].

(** The five fixed entries of [params], and the items they are joined from. *)
Definition fixed_params : Form :=
  [ (lit "hide_gdpr_banner", lit "1");
    (lit "hide_event_type_details", lit "1");
    (lit "background_color", lit "F7F7F7");
    (lit "text_color", lit "111827");
    (lit "primary_color", lit "2563EB") ].

Definition fixed_items : list str :=
  [ lit "hide_gdpr_banner=1"; lit "hide_event_type_details=1";
    lit "background_color=F7F7F7"; lit "text_color=111827";
    lit "primary_color=2563EB" ].

(** ** The clock *)

(** A naive [datetime], as [datetime.utcnow()] returns it. *)
Module DateTime.
Record t := mk {
  year : Z;
  month : Z;
  day : Z;
  hour : Z;
  minute : Z;
  second : Z;
  microsecond : Z;
}.



End DateTime.








(** * Properties *)

(** ** Strings and forms *)

Lemma str_eqb_eq (a b : str) : str_eqb a b = true ↔ a = b.
Proof.
  revert b; induction a as [|x a IH]; intros [|y b]; simpl; try easy.
  rewrite andb_true_iff, N.eqb_eq, IH. split.
  - intros [-> ->]; reflexivity.
  - intros [= -> ->]; auto.
Qed.

Lemma str_eqb_neq (a b : str) : str_eqb a b = false ↔ a ≠ b.
Proof.
  rewrite <- str_eqb_eq. destruct (str_eqb a b); split; congruence.
Qed.

Lemma not_truthy (s : str) : negb (truthy s) = true ↔ s = [].
Proof. destruct s; simpl; split; congruence. Qed.

Lemma truthy_nonempty (s : str) : truthy s = true ↔ s ≠ [].
Proof. destruct s; simpl; split; congruence. Qed.

Lemma lead_data_lookup (form : Form) (k : str) :
  k ∈ lead_fields →
  form_lookup (lead_data form) k = Some (strip (form_get form k [])).
Proof.
  unfold lead_fields. rewrite !elem_of_cons, elem_of_nil.
  intros [->|[->|[->|[->|[->|[->|[->|[]]]]]]]]; reflexivity.
Qed.

Lemma lead_data_get (form : Form) (k : str) :
  k ∈ lead_fields →
  form_get (lead_data form) k [] = strip (form_get form k []).
Proof. intros Hk. unfold form_get at 1. now rewrite lead_data_lookup. Qed.

Ltac in_fields := unfold lead_fields; repeat constructor.

Example strip_both_ends : strip (lit "  1 Main St 	") = lit "1 Main St".
Proof. reflexivity. Qed.

Example strip_blank : strip [0x20; 0xA0; 0x3000; 0x0A]%N = [].
Proof. reflexivity. Qed.

Example form_get_first_value :
  form_get [(lit "email", lit "a@x.org"); (lit "email", lit "b@x.org")]
           (lit "email") []
  = lit "a@x.org".
Proof. reflexivity. Qed.

Example tag_names_of_fragment :
  tag_names (lit "<p>1 < 2 <ScRipt src=x>y</script ></p>")
  = [lit "p"; lit "script"; lit "script"; lit "p"].
Proof. reflexivity. Qed.

(** ** Row ids *)

Lemma max_rowid_ge (ids : list Z) (x : Z) : x ∈ ids → x ≤ max_rowid ids.
Proof.
  induction ids as [|y ids IH]; simpl.
  - intros Hx; inversion Hx.
  - rewrite elem_of_cons. intros [->|Hx]; [lia|]. specialize (IH Hx). lia.
Qed.

Lemma max_rowid_nonneg (ids : list Z) : 0 ≤ max_rowid ids.
Proof. induction ids as [|x ids IH]; simpl; lia. Qed.

Lemma max_rowid_app (a b : list Z) :
  max_rowid (a ++ b) = Z.max (max_rowid a) (max_rowid b).
Proof.
  induction a as [|x a IH]; simpl.
  - pose proof (max_rowid_nonneg b). lia.
  - fold (max_rowid (a ++ b)). fold (max_rowid a). rewrite IH. lia.
Qed.

Lemma next_rowid_fresh (seq : Z) (ids : list Z) : next_rowid seq ids ∉ ids.
Proof.
  intros Hin. apply max_rowid_ge in Hin. unfold next_rowid in Hin. lia.
Qed.

(** ** Lead intake *)

(** C4: a POST to /home-evaluation with a blank name, email or address
    (empty once trimmed) creates no lead row, leaves the whole database as
    it was, and renders the form again with the error message flashed and
    with every field the visitor filled in (trimmed) handed back. *)
Theorem home_evaluation_blank_field (form : Form) (now : str) (db : DB) :
  strip (form_get form (lit "full_name") []) = []
  ∨ strip (form_get form (lit "email") []) = []
  ∨ strip (form_get form (lit "address") []) = [] →
  let r := home_evaluation POST form now db in
  db_after r = db
  ∧ response r = Render (HomeEvaluationPage (lead_data form)) 200
  ∧ flashed r = [lit "Name, email, and property address are required."]
  ∧ ∀ k, k ∈ lead_fields →
         form_lookup (lead_data form) k = Some (strip (form_get form k [])).
Proof.
  intros Hblank r.
  assert (Hguard :
    negb (truthy (form_get (lead_data form) (lit "full_name") []))
    || negb (truthy (form_get (lead_data form) (lit "email") []))
    || negb (truthy (form_get (lead_data form) (lit "address") [])) = true).
  { rewrite !lead_data_get by in_fields.
    rewrite !orb_true_iff, !not_truthy. tauto. }
  subst r. unfold home_evaluation. cbn [is_post]. cbv zeta.
  rewrite Hguard. cbn [db_after response flashed].
  repeat split; auto using lead_data_lookup.
Qed.

Lemma home_evaluation_blank_field_witness :
  let form := [ (lit "full_name", lit "Ann Lee"); (lit "email", lit "  ");
                (lit "address", lit "1 Main St") ] in
  strip (form_get form (lit "email") []) = []
  ∧ db_after (home_evaluation POST form (lit "2024-05-01T09:00:00") init_db)
    = init_db.
Proof.
  intros form. split; [reflexivity|].
  apply (home_evaluation_blank_field form (lit "2024-05-01T09:00:00") init_db).
  right; left; reflexivity.
Defined.







(** ** Queries *)

Lemma elem_of_filter_bool {A} (f : A → bool) (l : list A) (x : A) :
  x ∈ List.filter f l ↔ x ∈ l ∧ f x = true.
Proof. rewrite !list_elem_of_In. apply filter_In. Qed.

Lemma find_Some_elem {A} (f : A → bool) (l : list A) (x : A) :
  List.find f l = Some x → x ∈ l ∧ f x = true.
Proof. rewrite list_elem_of_In. apply find_some. Qed.

Lemma insert_desc_perm {A} (key : A → option str) (x : A) (l : list A) :
  insert_desc key x l ≡ₚ x :: l.
Proof.
  induction l as [|y l IH]; simpl; [reflexivity|].
  destruct (sql_leb (key y) (key x)); [reflexivity|].
  rewrite IH. apply Permutation_swap.
Qed.

(** Ordering neither drops nor invents rows. *)
Lemma order_by_desc_perm {A} (key : A → option str) (l : list A) :
  order_by_desc key l ≡ₚ l.
Proof.
  induction l as [|x l IH]; simpl; [reflexivity|].
  rewrite insert_desc_perm. now rewrite IH.
Qed.

(** A column whose values are pairwise distinct identifies its row. *)
Lemma unique_column {A B} (f : A → B) (l : list A) (x y : A) :
  NoDup (f <$> l) → x ∈ l → y ∈ l → f x = f y → x = y.
Proof.
  induction l as [|z l IH]; simpl; intros Hnd Hx Hy Hxy.
  - inversion Hx.
  - apply NoDup_cons in Hnd as [Hz Hnd].
    apply elem_of_cons in Hx as [->|Hx]; apply elem_of_cons in Hy as [->|Hy];
      auto.
    + exfalso. apply Hz. rewrite Hxy. now apply list_elem_of_fmap_2.
    + exfalso. apply Hz. rewrite <- Hxy. now apply list_elem_of_fmap_2.
Qed.

Lemma py_or_empty (a : str) : py_or a [] = a.
Proof. now destruct a. Qed.

Section Blog.
Context {L : Libraries}.

Lemma blog_index_rows (db : DB) (r : Listing.t) :
  r ∈ List.map listing_of
        (order_by_desc (fun p => sqlite_datetime (Post.created_at p))
                       (List.filter is_published (posts db)))
  ↔ ∃ q, q ∈ posts db ∧ Post.published q = 1 ∧ r = listing_of q.
Proof.
  change (List.map listing_of ?l) with (listing_of <$> l).
  rewrite list_elem_of_fmap. split.
  - intros (q & -> & Hq). rewrite order_by_desc_perm in Hq.
    apply elem_of_filter_bool in Hq as [Hq Hpub].
    exists q. repeat split; auto. now apply Z.eqb_eq.
  - intros (q & Hq & Hpub & ->). exists q. split; [reflexivity|].
    rewrite order_by_desc_perm. apply elem_of_filter_bool. split; auto.
    now apply Z.eqb_eq.
Qed.

Lemma select_published_Some (db : DB) (slug : str) (d : Detail.t) :
  select_published db slug = Some d →
  ∃ q, q ∈ posts db ∧ Post.published q = 1 ∧ Post.slug q = slug
       ∧ d = detail_of q.
Proof.
  unfold select_published.
  destruct (List.find _ _) as [q|] eqn:Hfind; simpl; [|discriminate].
  intros [= <-]. apply find_Some_elem in Hfind as [Hq Htest].
  apply andb_true_iff in Htest as [Hslug Hpub].
  exists q. repeat split; auto.
  - now apply Z.eqb_eq.
  - now apply str_eqb_eq.
Qed.

(** C1: when the query of GET /blog/<slug> finds a published post, the
    handler returns the rendered page exactly in the fallback branch,
    where the stored content_html is empty once stripped and content_md
    is not empty; whenever content_html is populated it returns nothing
    at all. *)
Theorem blog_post_responds_only_in_fallback
    (db : DB) (slug : str) (post : Detail.t) :
  select_published db slug = Some post →
  let html := strip (Detail.content_html post) in
  let md_text := Detail.content_md post in
  (html = [] → md_text ≠ [] →
     blog_post db slug
     = Render (BlogPostPage post (render_markdown md_text)
                            (UrlAdminBlogEdit (Detail.id post))) 200)
  ∧ (html ≠ [] → blog_post db slug = ReturnNone)
  ∧ (∀ page status,
       blog_post db slug = Render page status → html = [] ∧ md_text ≠ []).
Proof.
  intros Hsel html md_text. unfold blog_post. rewrite Hsel.
  rewrite py_or_empty. fold html md_text.
  destruct html as [|c html']; destruct md_text as [|m md']; simpl;
    repeat split; intros; congruence.
Qed.

(** C6: under the schema's constraints, a post with [published = 0] is
    not among the rows of the GET /blog listing and GET /blog/<slug> on
    its slug aborts with 404; both queries select rows of posts with
    [published = 1] only. *)
Theorem unpublished_post_hidden (db : DB) (p : Post.t) :
  db_ok db → p ∈ posts db → Post.published p = 0 →
  (∃ rows,
      blog_index db = Render (BlogIndexPage rows) 200
      ∧ (∀ r, r ∈ rows → Listing.id r ≠ Post.id p
                          ∧ Listing.slug r ≠ Post.slug p)
      ∧ (∀ r, r ∈ rows →
           ∃ q, q ∈ posts db ∧ Post.published q = 1 ∧ r = listing_of q))
  ∧ blog_post db (Post.slug p) = Abort 404
  ∧ (∀ slug d, select_published db slug = Some d →
       ∃ q, q ∈ posts db ∧ Post.published q = 1 ∧ Post.slug q = slug
            ∧ d = detail_of q).
Proof.
  intros (Hids & Hslugs & _) Hp Hpub. split; [|split].
  - eexists. split; [reflexivity|]. split.
    + intros r (q & Hq & Hqpub & ->)%blog_index_rows. simpl.
      split; intros Heq.
      * assert (q = p) by eauto using unique_column. subst q. lia.
      * assert (q = p) by eauto using unique_column. subst q. lia.
    + intros r Hr. now apply blog_index_rows.
  - unfold blog_post.
    destruct (select_published db (Post.slug p)) as [d|] eqn:Hsel;
      [|reflexivity].
    apply select_published_Some in Hsel as (q & Hq & Hqpub & Hslug & _).
    assert (q = p) by eauto using unique_column. subst q. lia.
  - apply select_published_Some.
Qed.

End Blog.


Lemma blog_post_responds_only_in_fallback_witness :
  select_published Sample.db1 (lit "market-notes")
  = Some (detail_of Sample.legacy3)
  ∧ blog_post (L := Sample.libraries) Sample.db1 (lit "market-notes")
    = Render (BlogPostPage (detail_of Sample.legacy3)
                (lit "&lt;p&gt;Prices *rose*.&lt;/p&gt;") (UrlAdminBlogEdit 3))
             200
  ∧ blog_post (L := Sample.libraries) Sample.db1 (lit "open-house")
    = ReturnNone.
Proof.
  split; [reflexivity|]. split.
  - apply (blog_post_responds_only_in_fallback (L := Sample.libraries)
             Sample.db1 (lit "market-notes") (detail_of Sample.legacy3));
      [reflexivity | reflexivity | discriminate].
  - apply (blog_post_responds_only_in_fallback (L := Sample.libraries)
             Sample.db1 (lit "open-house") (detail_of Sample.post1));
      [reflexivity | discriminate].
Defined.

Lemma unpublished_post_hidden_witness :
  db_ok Sample.db1
  ∧ Sample.draft2 ∈ posts Sample.db1
  ∧ blog_post (L := Sample.libraries) Sample.db1 (lit "draft") = Abort 404.
Proof.
  assert (Hok : db_ok Sample.db1)
    by (apply (bool_decide_unpack _); vm_compute; exact I).
  assert (Hin : Sample.draft2 ∈ posts Sample.db1)
    by (simpl; repeat constructor).
  split; [exact Hok|]. split; [exact Hin|].
  apply (unpublished_post_hidden (L := Sample.libraries) Sample.db1
           Sample.draft2 Hok Hin eq_refl).
Defined.

(** ** The admin editor *)

Section Admin.
Context {L : Libraries} {S : Settings}.

Lemma check_admin_configured (admin pw : str) :
  ADMIN_PASSWORD = Some admin → check_admin pw = inr (str_eqb pw admin).
Proof. unfold check_admin. now intros ->. Qed.

(** The two handlers, with the values read off the form named. *)
Lemma admin_blog_new_eq (method : Method) (form : Form) (now : str) (db : DB) :
  admin_blog_new method form now db
  = if is_post method then
      match check_admin (form_get form (lit "password") []) with
      | inl e => mkReply (Raise e) [] db
      | inr false =>
          mkReply (Render (AdminPostEditPage (FormDict form) ModeNew None) 200)
                  [lit "Invalid admin password."] db
      | inr true =>
          if negb (truthy (submitted form "title"))
             || negb (truthy (submitted form "content_md"))
          then
            mkReply
              (Render (AdminPostEditPage (FormDict form) ModeNew None) 200)
              [lit "Title and content are required."] db
          else
            match insert_submitted form now db with
            | inl e => mkReply (Raise e) [] db
            | inr db' =>
                mkReply
                  (Redirect (UrlBlogPost (slugify (submitted form "title"))))
                  [] db'
            end
      end
    else
      mkReply (Render (AdminPostEditPage (FormDict []) ModeNew None) 200)
              [] db.
Proof. reflexivity. Qed.

Lemma admin_blog_edit_eq (post_id : Z) (method : Method) (form : Form)
    (now : str) (db : DB) :
  admin_blog_edit post_id method form now db
  = match select_by_id db post_id with
    | None => mkReply (Render NotFoundPage 404) [] db
    | Some row =>
        if is_post method then
          match check_admin (form_get form (lit "password") []) with
          | inl e => mkReply (Raise e) [] db
          | inr false =>
              mkReply
                (Render (AdminPostEditPage (FormDict form) ModeEdit
                                           (Some row)) 200)
                [lit "Invalid admin password."] db
          | inr true =>
              match update_submitted post_id form now db with
              | inl e => mkReply (Raise e) [] db
              | inr db' =>
                  mkReply
                    (Redirect
                       (UrlBlogPost (slugify (submitted form "title"))))
                    [] db'
              end
          end
        else
          mkReply
            (Render (AdminPostEditPage (FormRow row) ModeEdit (Some row)) 200)
            [] db
    end.
Proof. reflexivity. Qed.


(** Once the row is found and the password check is passed, an edit
    request is the UPDATE: nothing is validated. *)
Lemma admin_blog_edit_saves (post_id : Z) (form : Form) (now : str)
    (db : DB) (row : Post.t) :
  select_by_id db post_id = Some row →
  check_admin (form_get form (lit "password") []) = inr true →
  admin_blog_edit post_id POST form now db
  = match update_submitted post_id form now db with
    | inl e => mkReply (Raise e) [] db
    | inr db' =>
        mkReply (Redirect (UrlBlogPost (slugify (submitted form "title"))))
                [] db'
    end.
Proof.
  intros Hrow Hpw. rewrite admin_blog_edit_eq, Hrow. cbn [is_post].
  now rewrite Hpw.
Qed.

(** A create request that ends in a redirect did the INSERT. *)
Lemma admin_blog_new_redirect (method : Method) (form : Form) (now : str)
    (db : DB) (u : Url) :
  let r := admin_blog_new method form now db in
  response r = Redirect u →
  method = POST
  ∧ check_admin (form_get form (lit "password") []) = inr true
  ∧ submitted form "title" ≠ [] ∧ submitted form "content_md" ≠ []
  ∧ insert_submitted form now db = inr (db_after r)
  ∧ u = UrlBlogPost (slugify (submitted form "title")).
Proof.
  intros r. subst r. rewrite admin_blog_new_eq.
  destruct method; cbn [is_post]; try discriminate.
  destruct (check_admin _) as [e|[|]] eqn:Hpw; try discriminate.
  destruct (truthy (submitted form "title")) eqn:Htitle; try discriminate.
  destruct (truthy (submitted form "content_md")) eqn:Hmd; try discriminate.
  cbn [negb orb].
  destruct (insert_submitted form now db) as [e|db'] eqn:Hins;
    try discriminate.
  cbn [response db_after]. intros [= <-].
  apply truthy_nonempty in Htitle, Hmd. auto 10.
Qed.

(** An edit request that ends in a redirect did the UPDATE. *)
Lemma admin_blog_edit_redirect (post_id : Z) (method : Method) (form : Form)
    (now : str) (db : DB) (u : Url) :
  let r := admin_blog_edit post_id method form now db in
  response r = Redirect u →
  method = POST
  ∧ (∃ row, select_by_id db post_id = Some row)
  ∧ check_admin (form_get form (lit "password") []) = inr true
  ∧ update_submitted post_id form now db = inr (db_after r)
  ∧ u = UrlBlogPost (slugify (submitted form "title")).
Proof.
  intros r. subst r. rewrite admin_blog_edit_eq.
  destruct (select_by_id db post_id) as [row|] eqn:Hrow; try discriminate.
  destruct method; cbn [is_post]; try discriminate.
  destruct (check_admin _) as [e|[|]] eqn:Hpw; try discriminate.
  destruct (update_submitted post_id form now db) as [e|db'] eqn:Hupd;
    try discriminate.
  cbn [response db_after]. intros [= <-]. eauto 10.
Qed.

(** Whatever the request, a handler leaves the database alone or performs
    its one write. *)
Lemma admin_blog_new_db (method : Method) (form : Form) (now : str) (db : DB) :
  let r := admin_blog_new method form now db in
  db_after r = db ∨ insert_submitted form now db = inr (db_after r).
Proof.
  intros r. subst r. rewrite admin_blog_new_eq.
  destruct (is_post method); [|now left].
  destruct (check_admin _) as [e|[|]]; try now left.
  destruct (negb _ || negb _); [now left|].
  destruct (insert_submitted form now db); [now left | now right].
Qed.

Lemma admin_blog_edit_db (post_id : Z) (method : Method) (form : Form)
    (now : str) (db : DB) :
  let r := admin_blog_edit post_id method form now db in
  db_after r = db ∨ update_submitted post_id form now db = inr (db_after r).
Proof.
  intros r. subst r. rewrite admin_blog_edit_eq.
  destruct (select_by_id db post_id); [|now left].
  destruct (is_post method); [|now left].
  destruct (check_admin _) as [e|[|]]; try now left.
  destruct (update_submitted post_id form now db); [now left | now right].
Qed.

End Admin.

(** ** The two writes to [posts] *)

Lemma existsb_false_elem {A} (f : A → bool) (l : list A) :
  existsb f l = false ↔ ∀ x, x ∈ l → f x = false.
Proof.
  induction l as [|y l IH]; simpl.
  - split; [intros _ x Hx; inversion Hx | reflexivity].
  - rewrite orb_false_iff, IH. split.
    + intros [Hy Hl] x [->|Hx]%elem_of_cons; auto.
    + intros Hall. split; [apply Hall; left|].
      intros x Hx. apply Hall. now right.
Qed.

Lemma existsb_true_elem {A} (f : A → bool) (l : list A) :
  existsb f l = true ↔ ∃ x, x ∈ l ∧ f x = true.
Proof.
  rewrite existsb_exists. split; intros (x & Hx & Hf); exists x;
    (split; [now apply list_elem_of_In | exact Hf]).
Qed.

Lemma slug_taken_false (s : str) (rows : list Post.t) :
  slug_taken s rows = false ↔ ∀ q, q ∈ rows → Post.slug q ≠ s.
Proof.
  unfold slug_taken. rewrite existsb_false_elem.
  split; intros Hall q Hq; apply str_eqb_neq, Hall, Hq.
Qed.


Section Writes.
Context {L : Libraries}.

Lemma insert_submitted_inr (form : Form) (now : str) (db db' : DB) :
  insert_submitted form now db = inr db' →
  slug_taken (slugify (submitted form "title")) (posts db) = false
  ∧ home_eval_leads db' = home_eval_leads db
  ∧ home_eval_leads_seq db' = home_eval_leads_seq db
  ∧ ∃ p, posts db' = posts db ++ [p]
         ∧ posts_seq db' = Post.id p
         ∧ Post.id p = next_rowid (posts_seq db) (Post.id <$> posts db)
         ∧ saved_from form p
         ∧ Post.created_at p = now ∧ Post.updated_at p = now.
Proof.
  unfold insert_submitted, insert_post.
  destruct (rowid_exhausted _ _); [discriminate|].
  destruct (slug_taken _ _) eqn:Htaken; [discriminate|].
  intros [= <-]. cbn [home_eval_leads home_eval_leads_seq posts posts_seq].
  repeat split. eexists. split; [reflexivity|].
  unfold saved_from. cbn. repeat split.
Qed.





Lemma edit_row_id (post_id : Z) (form : Form) (now : str) (q : Post.t) :
  Post.id (edit_row post_id form now q) = Post.id q.
Proof. unfold edit_row. now destruct (_ =? _). Qed.

Lemma edit_row_created_at (post_id : Z) (form : Form) (now : str)
    (q : Post.t) :
  Post.created_at (edit_row post_id form now q) = Post.created_at q.
Proof. unfold edit_row. now destruct (_ =? _). Qed.

Lemma edit_row_other (post_id : Z) (form : Form) (now : str) (q : Post.t) :
  Post.id q ≠ post_id → edit_row post_id form now q = q.
Proof.
  unfold edit_row. intros Hne. apply Z.eqb_neq in Hne. now rewrite Hne.
Qed.

Lemma edit_row_same (post_id : Z) (form : Form) (now : str) (q : Post.t) :
  Post.id q = post_id →
  edit_row post_id form now q = set_submitted form now q.
Proof. unfold edit_row. intros Heq. apply Z.eqb_eq in Heq. now rewrite Heq. Qed.

Lemma set_submitted_saved (form : Form) (now : str) (q : Post.t) :
  saved_from form (set_submitted form now q).
Proof. unfold saved_from. cbn. repeat split. Qed.

Lemma update_submitted_inr (post_id : Z) (form : Form) (now : str)
    (db db' : DB) :
  update_submitted post_id form now db = inr db' →
  home_eval_leads db' = home_eval_leads db
  ∧ home_eval_leads_seq db' = home_eval_leads_seq db
  ∧ posts_seq db' = posts_seq db
  ∧ posts db' = edit_row post_id form now <$> posts db
  ∧ ((∃ q, q ∈ posts db ∧ Post.id q = post_id) →
     ∀ q, q ∈ posts db → Post.id q ≠ post_id →
          Post.slug q ≠ slugify (submitted form "title")).
Proof.
  unfold update_submitted, update_post.
  destruct (existsb _ _ && existsb _ _) eqn:Hconflict; [discriminate|].
  intros [= <-]. cbn [home_eval_leads home_eval_leads_seq posts posts_seq].
  repeat split.
  intros (q0 & Hq0 & Hid0) q Hq Hne.
  apply andb_false_iff in Hconflict as [Hnone|Hfree].
  - rewrite existsb_false_elem in Hnone. specialize (Hnone q0 Hq0).
    apply Z.eqb_neq in Hnone. contradiction.
  - rewrite existsb_false_elem in Hfree. specialize (Hfree q Hq).
    apply Z.eqb_neq in Hne. rewrite Hne in Hfree. cbn in Hfree.
    now apply str_eqb_neq.
Qed.

End Writes.

(** ** Rejected and accepted submissions *)

Section Submissions.
Context {L : Libraries} {S : Settings}.

(** X21, the create half of the validation rule: with the right password
    and a blank title or blank content, POST /admin/blog/new writes nothing
    and shows the form again, holding the submitted fields, with a
    message. *)
Lemma admin_blog_new_blank_rejected (form : Form) (now : str) (db : DB) :
  check_admin (form_get form (lit "password") []) = inr true →
  submitted form "title" = [] ∨ submitted form "content_md" = [] →
  let r := admin_blog_new POST form now db in
  db_after r = db
  ∧ response r = Render (AdminPostEditPage (FormDict form) ModeNew None) 200
  ∧ flashed r = [lit "Title and content are required."].
Proof.
  intros Hpw Hblank r. subst r. rewrite admin_blog_new_eq. cbn [is_post].
  rewrite Hpw.
  assert (negb (truthy (submitted form "title"))
          || negb (truthy (submitted form "content_md")) = true) as ->.
  { rewrite orb_true_iff, !not_truthy. exact Hblank. }
  repeat split.
Qed.

(** C3, as the code has it: a POST to /admin/blog/new or to
    /admin/blog/<id>/edit, the id being one that SQLite can hold, whose
    password differs from the configured one leaves the database exactly
    as it was.  Create answers with the edit form and the error message;
    edit does so when a post has the id, and answers with the not-found
    page when none has. *)
Theorem wrong_password_changes_nothing
    (admin : str) (post_id : Z) (form : Form) (now : str) (db : DB) :
  ADMIN_PASSWORD = Some admin →
  form_get form (lit "password") [] ≠ admin →
  sqlite_integer post_id →
  let r_new := admin_blog_new POST form now db in
  let r_edit := admin_blog_edit post_id POST form now db in
  db_after r_new = db
  ∧ response r_new
    = Render (AdminPostEditPage (FormDict form) ModeNew None) 200
  ∧ flashed r_new = [lit "Invalid admin password."]
  ∧ db_after r_edit = db
  ∧ match select_by_id db post_id with
    | Some row =>
        response r_edit
        = Render (AdminPostEditPage (FormDict form) ModeEdit (Some row)) 200
        ∧ flashed r_edit = [lit "Invalid admin password."]
    | None =>
        response r_edit = Render NotFoundPage 404 ∧ flashed r_edit = []
    end.
Proof.
  intros Hconf Hpw _ r_new r_edit. subst r_new r_edit.
  rewrite admin_blog_new_eq, admin_blog_edit_eq. cbn [is_post].
  rewrite (check_admin_configured admin) by exact Hconf.
  apply str_eqb_neq in Hpw. rewrite Hpw.
  destruct (select_by_id db post_id); repeat split.
Qed.


End Submissions.

(** ** What a save stores *)

Section Saves.
Context {L : Libraries} {S : Settings}.

Lemma saved_from_derived (form : Form) (p : Post.t) :
  saved_from form p → derived_from_source p.
Proof.
  intros (Ht & Hs & _ & Hmd & Hhtml & _). unfold derived_from_source.
  now rewrite Ht, Hmd.
Qed.

(** Rows of the table after a create request. *)
Lemma admin_blog_new_rows (method : Method) (form : Form) (now : str)
    (db : DB) (p : Post.t) :
  p ∈ posts (db_after (admin_blog_new method form now db)) →
  p ∈ posts db ∨ saved_from form p.
Proof.
  destruct (admin_blog_new_db method form now db) as [->|Hins]; [now left|].
  apply insert_submitted_inr in Hins as (_ & _ & _ & p' & -> & _ & _ & Hs & _).
  rewrite elem_of_app, list_elem_of_singleton. intros [Hp| ->]; auto.
Qed.

(** Rows of the table after an edit request. *)
Lemma admin_blog_edit_rows (post_id : Z) (method : Method) (form : Form)
    (now : str) (db : DB) (p : Post.t) :
  p ∈ posts (db_after (admin_blog_edit post_id method form now db)) →
  p ∈ posts db ∨ saved_from form p.
Proof.
  destruct (admin_blog_edit_db post_id method form now db) as [->|Hupd];
    [now left|].
  apply update_submitted_inr in Hupd as (_ & _ & _ & -> & _).
  intros (q & -> & Hq)%list_elem_of_fmap. unfold edit_row.
  destruct (Post.id q =? post_id); [right | now left].
  apply set_submitted_saved.
Qed.

(** C9: a create request that succeeds appends one row, and an edit
    request that succeeds rewrites the row of the given id, whose title
    and content_md are the trimmed submitted values, whose slug is
    [slugify] of that title and whose content_html is [render_markdown]
    of that content_md.  Whatever the request, every row of [posts] after
    either handler is a row from before or has its slug and content_html
    derived this way: content_html has no other source. *)
Theorem save_derives_slug_and_html (form : Form) (now : str) (db : DB) :
  (∀ method u,
     let r := admin_blog_new method form now db in
     response r = Redirect u →
     ∃ p, posts (db_after r) = posts db ++ [p] ∧ saved_from form p)
  ∧ (∀ post_id method u,
       let r := admin_blog_edit post_id method form now db in
       response r = Redirect u →
       (∃ p, p ∈ posts (db_after r) ∧ Post.id p = post_id)
       ∧ ∀ p, p ∈ posts (db_after r) → Post.id p = post_id →
              saved_from form p)
  ∧ (∀ method p,
       p ∈ posts (db_after (admin_blog_new method form now db)) →
       p ∈ posts db ∨ derived_from_source p)
  ∧ (∀ post_id method p,
       p ∈ posts (db_after (admin_blog_edit post_id method form now db)) →
       p ∈ posts db ∨ derived_from_source p).
Proof.
  split; [|split; [|split]].
  - intros method u r Hok.
    apply admin_blog_new_redirect in Hok as (_ & _ & _ & _ & Hins & _).
    apply insert_submitted_inr in Hins
      as (_ & _ & _ & p & Hrows & _ & _ & Hs & _).
    eauto.
  - intros post_id method u r Hok.
    apply admin_blog_edit_redirect in Hok
      as (_ & (row & Hrow) & _ & Hupd & _).
    apply update_submitted_inr in Hupd as (_ & _ & _ & Hrows & _).
    fold r in Hrows. split.
    + apply find_Some_elem in Hrow as [Hrow Hid]. apply Z.eqb_eq in Hid.
      exists (edit_row post_id form now row). split.
      * rewrite Hrows. now apply list_elem_of_fmap_2.
      * now rewrite edit_row_id.
    + intros p Hp Hid. rewrite Hrows in Hp.
      apply list_elem_of_fmap in Hp as (q & -> & Hq).
      rewrite edit_row_id in Hid. rewrite edit_row_same by exact Hid.
      apply set_submitted_saved.
  - intros method p Hp. apply admin_blog_new_rows in Hp as [Hp|Hp]; auto.
    right. eapply saved_from_derived, Hp.
  - intros post_id method p Hp.
    apply admin_blog_edit_rows in Hp as [Hp|Hp]; auto.
    right. eapply saved_from_derived, Hp.
Qed.

(** C10: an edit request that succeeds leaves the leads table and both
    row-id counters as they were and keeps every row of [posts] in its
    place; a row with another id is unchanged, and the row with the given
    id keeps its [id] and [created_at], so only title, slug, summary,
    content_md, content_html, cover_url, published and updated_at can
    differ. *)
Theorem admin_blog_edit_frame
    (post_id : Z) (method : Method) (form : Form) (now : str) (db : DB)
    (u : Url) :
  let r := admin_blog_edit post_id method form now db in
  response r = Redirect u →
  home_eval_leads (db_after r) = home_eval_leads db
  ∧ home_eval_leads_seq (db_after r) = home_eval_leads_seq db
  ∧ posts_seq (db_after r) = posts_seq db
  ∧ length (posts (db_after r)) = length (posts db)
  ∧ ∀ (i : nat) (p : Post.t),
      posts db !! i = Some p →
      ∃ p', posts (db_after r) !! i = Some p'
            ∧ Post.id p' = Post.id p
            ∧ Post.created_at p' = Post.created_at p
            ∧ (Post.id p ≠ post_id → p' = p)
            ∧ (Post.id p = post_id → saved_from form p'
                                     ∧ Post.updated_at p' = now).
Proof.
  intros r Hok.
  apply admin_blog_edit_redirect in Hok as (_ & _ & _ & Hupd & _).
  apply update_submitted_inr in Hupd as (Hleads & Hlseq & Hpseq & Hrows & _).
  fold r in Hleads, Hlseq, Hpseq, Hrows.
  split; [exact Hleads|]. split; [exact Hlseq|]. split; [exact Hpseq|].
  split.
  - rewrite Hrows. apply length_fmap.
  - intros i p Hi. exists (edit_row post_id form now p).
    rewrite Hrows, list_lookup_fmap, Hi.
    split; [reflexivity|]. split; [apply edit_row_id|].
    split; [apply edit_row_created_at|]. split; [apply edit_row_other|].
    intros Hid. rewrite edit_row_same by exact Hid.
    split; [apply set_submitted_saved | reflexivity].
Qed.

Lemma script_not_allowed :
  lit "script" ∉ bleach_ALLOWED_TAGS → lit "script" ∉ allowed_tags.
Proof.
  intros Hdefault. unfold allowed_tags.
  apply not_elem_of_union. split; [exact Hdefault|].
  apply (bool_decide_unpack _). vm_compute. exact I.
Qed.

(** C7: provided [bleach.clean], called with the allow-lists of
    [render_markdown], emits only tags of [allowed_tags], and bleach's
    default list has no [script], the HTML that [render_markdown] returns
    has no script tag, whatever the Markdown; so every row of [posts]
    after a create or edit request is a row from before or has a
    content_html without script tag. *)
Theorem stored_html_has_no_script :
  bleach_honours_allowed_tags →
  lit "script" ∉ bleach_ALLOWED_TAGS →
  (∀ md_text, ¬ has_tag (lit "script") (render_markdown md_text))
  ∧ (∀ method form now db p,
       p ∈ posts (db_after (admin_blog_new method form now db)) →
       p ∈ posts db ∨ ¬ has_tag (lit "script") (Post.content_html p))
  ∧ (∀ post_id method form now db p,
       p ∈ posts (db_after (admin_blog_edit post_id method form now db)) →
       p ∈ posts db ∨ ¬ has_tag (lit "script") (Post.content_html p)).
Proof.
  intros Hbleach Hdefault.
  assert (Hrender : ∀ md_text,
             ¬ has_tag (lit "script") (render_markdown md_text)).
  { intros md_text Htag. apply Hbleach in Htag.
    now apply script_not_allowed in Htag. }
  split; [exact Hrender|]. split.
  - intros method form now db p [Hp|Hp]%admin_blog_new_rows; auto.
    right. destruct Hp as (_ & _ & _ & _ & -> & _). apply Hrender.
  - intros post_id method form now db p [Hp|Hp]%admin_blog_edit_rows; auto.
    right. destruct Hp as (_ & _ & _ & _ & -> & _). apply Hrender.
Qed.

End Saves.

(** ** The schema's constraints are kept *)

Lemma init_db_ok : db_ok init_db.
Proof. repeat split; constructor. Qed.

Lemma NoDup_snoc {A} (l : list A) (x : A) : NoDup l → x ∉ l → NoDup (l ++ [x]).
Proof.
  intros Hl Hx. apply NoDup_app. split; [exact Hl|]. split.
  - intros y Hy ->%list_elem_of_singleton. contradiction.
  - apply NoDup_singleton.
Qed.

Lemma insert_lead_ok (db db' : DB) (n e ph a pt tf nt c : str) :
  db_ok db → insert_lead db n e ph a pt tf nt c = inr db' → db_ok db'.
Proof.
  intros (Hids & Hslugs & Hleads). unfold db_ok, insert_lead.
  destruct (rowid_exhausted _ _); [discriminate|]. intros [= <-].
  cbn [posts home_eval_leads]. repeat split; auto.
  rewrite fmap_app. apply NoDup_snoc; [exact Hleads|]. apply next_rowid_fresh.
Qed.

Section Constraints.
Context {L : Libraries} {S : Settings}.

Lemma insert_submitted_ok (form : Form) (now : str) (db db' : DB) :
  db_ok db → insert_submitted form now db = inr db' → db_ok db'.
Proof.
  intros (Hids & Hslugs & Hleads) Hins.
  apply insert_submitted_inr in Hins
    as (Hfree & Hl & _ & p & Hrows & _ & Hid & Hsaved & _).
  unfold db_ok. rewrite Hrows, Hl, !fmap_app. cbn [fmap list_fmap].
  repeat split; auto.
  - apply NoDup_snoc; [exact Hids|]. rewrite Hid. apply next_rowid_fresh.
  - apply NoDup_snoc; [exact Hslugs|].
    intros (q & Hq & Hin)%list_elem_of_fmap.
    rewrite slug_taken_false in Hfree. apply (Hfree q Hin).
    rewrite <- Hq. apply Hsaved.
Qed.

Lemma edit_rows_untouched (post_id : Z) (form : Form) (now : str)
    (rows : list Post.t) :
  (∀ q, q ∈ rows → Post.id q ≠ post_id) →
  edit_row post_id form now <$> rows = rows.
Proof.
  induction rows as [|q rows IH]; intros Hall; [reflexivity|].
  cbn [fmap list_fmap]. rewrite edit_row_other by (apply Hall; left).
  f_equal. apply IH. intros q' Hq'. apply Hall. now right.
Qed.

Lemma edit_rows_ids (post_id : Z) (form : Form) (now : str)
    (rows : list Post.t) :
  Post.id <$> (edit_row post_id form now <$> rows) = Post.id <$> rows.
Proof.
  rewrite <- list_fmap_compose. apply list_fmap_ext.
  intros i q _. apply edit_row_id.
Qed.

Lemma edit_row_slug (post_id : Z) (form : Form) (now : str) (q : Post.t) :
  Post.slug (edit_row post_id form now q)
  = if Post.id q =? post_id then slugify (submitted form "title")
    else Post.slug q.
Proof. unfold edit_row. now destruct (_ =? _). Qed.

Lemma edit_rows_slugs (post_id : Z) (form : Form) (now : str)
    (rows : list Post.t) :
  NoDup (Post.id <$> rows) → NoDup (Post.slug <$> rows) →
  (∀ q, q ∈ rows → Post.id q ≠ post_id →
        Post.slug q ≠ slugify (submitted form "title")) →
  NoDup (Post.slug <$> (edit_row post_id form now <$> rows)).
Proof.
  induction rows as [|q rows IH]; intros Hids Hslugs Hfree;
    cbn [fmap list_fmap] in *; [constructor|].
  apply NoDup_cons in Hids as [Hid Hids].
  apply NoDup_cons in Hslugs as [Hslug Hslugs].
  apply NoDup_cons. split.
  - intros (q1 & Heq & (q' & -> & Hq')%list_elem_of_fmap)%list_elem_of_fmap.
    rewrite !edit_row_slug in Heq.
    destruct (Z.eqb_spec (Post.id q) post_id) as [Hq|Hq];
      destruct (Z.eqb_spec (Post.id q') post_id) as [Hq1|Hq1].
    + apply Hid. rewrite Hq, <- Hq1. now apply list_elem_of_fmap_2.
    + apply (Hfree q'); [now right | exact Hq1 | now symmetry].
    + apply (Hfree q); [now left | exact Hq | exact Heq].
    + apply Hslug. rewrite Heq. now apply list_elem_of_fmap_2.
  - apply IH; auto. intros q' Hq'. apply Hfree. now right.
Qed.

Lemma update_submitted_ok (post_id : Z) (form : Form) (now : str)
    (db db' : DB) :
  db_ok db → update_submitted post_id form now db = inr db' → db_ok db'.
Proof.
  intros (Hids & Hslugs & Hleads) Hupd.
  apply update_submitted_inr in Hupd as (Hl & _ & _ & Hrows & Hfree).
  unfold db_ok. rewrite Hrows, Hl, edit_rows_ids. repeat split; auto.
  destruct (existsb (fun q => Post.id q =? post_id) (posts db)) eqn:Hex.
  - apply existsb_true_elem in Hex as (q & Hq & Hid).
    apply Z.eqb_eq in Hid. apply edit_rows_slugs; eauto.
  - rewrite existsb_false_elem in Hex.
    rewrite edit_rows_untouched; [exact Hslugs|].
    intros q Hq. now apply Z.eqb_neq, Hex.
Qed.

(** X1: every handler, on every request, keeps the primary keys of both
    tables and the slugs of the posts pairwise distinct. *)
Theorem handlers_keep_constraints
    (post_id : Z) (method : Method) (form : Form) (now : str) (db : DB) :
  db_ok db →
  db_ok (db_after (home_evaluation method form now db))
  ∧ db_ok (db_after (admin_blog_new method form now db))
  ∧ db_ok (db_after (admin_blog_edit post_id method form now db)).
Proof.
  intros Hok. split; [|split].
  - unfold home_evaluation. destruct (is_post method); [|exact Hok].
    cbv zeta. destruct (negb _ || negb _ || negb _); [exact Hok|].
    destruct (insert_lead _ _ _ _ _ _ _ _ _) as [e|db'] eqn:Hins;
      [exact Hok|].
    cbn [db_after]. eapply insert_lead_ok; eauto.
  - destruct (admin_blog_new_db method form now db) as [->|Hins];
      eauto using insert_submitted_ok.
  - destruct (admin_blog_edit_db post_id method form now db) as [->|Hupd];
      eauto using update_submitted_ok.
Qed.

End Constraints.

(** ** The handlers on concrete requests *)

(** C2 on the edit path: with the right password and a title that is blank
    once trimmed, POST /admin/blog/1/edit performs the UPDATE, storing the
    empty title and its slug, and redirects; the form is not shown again
    and the table has changed. *)
Theorem admin_blog_edit_saves_blank_title (L : Libraries) :
  let db := mkDB [] 0 [Sample.post1] 1 in
  let form := Sample.blank_title_form in
  let r := admin_blog_edit (S := Sample.settings) 1 POST form Sample.now db in
  check_admin (S := Sample.settings) (form_get form (lit "password") [])
  = inr true
  ∧ submitted form "title" = []
  ∧ response r = Redirect (UrlBlogPost (slugify []))
  ∧ posts (db_after r) = [set_submitted form Sample.now Sample.post1]
  ∧ db_after r ≠ db
  ∧ ¬ edit_form_with_error r.
Proof.
  intros db form r.
  split; [reflexivity|]. split; [reflexivity|]. split; [reflexivity|].
  split; [reflexivity|]. split.
  - intros Heq. apply (f_equal posts) in Heq. discriminate Heq.
  - intros (f & m & p & msg & Hresp & _). discriminate Hresp.
Qed.

(** C3 as stated fails on an id that no post has: the handler answers with
    the not-found page, not with the edit form and an error. *)
Lemma wrong_password_unknown_id_counterexample :
  let form := Sample.wrong_password_form in
  let r := admin_blog_edit (L := Sample.libraries) (S := Sample.settings)
             9 POST form Sample.now Sample.db1 in
  ADMIN_PASSWORD (Settings := Sample.settings) = Some (lit "changeme")
  ∧ form_get form (lit "password") [] ≠ lit "changeme"
  ∧ response r = Render NotFoundPage 404
  ∧ flashed r = []
  ∧ ¬ edit_form_with_error r.
Proof.
  intros form r. split; [reflexivity|]. split; [discriminate|].
  split; [reflexivity|]. split; [reflexivity|].
  intros (f & m & p & msg & Hresp & _). discriminate Hresp.
Qed.

Lemma wrong_password_changes_nothing_witness :
  let form := Sample.wrong_password_form in
  let r := admin_blog_edit (L := Sample.libraries) (S := Sample.settings)
             1 POST form Sample.now Sample.db1 in
  form_get form (lit "password") [] ≠ lit "changeme"
  ∧ sqlite_integer 1
  ∧ db_after r = Sample.db1
  ∧ response r
    = Render (AdminPostEditPage (FormDict form) ModeEdit (Some Sample.post1))
             200.
Proof.
  intros form r. split; [discriminate|].
  assert (Hid : sqlite_integer 1) by (unfold sqlite_integer, MAX_ROWID; lia).
  split; [exact Hid|].
  destruct (wrong_password_changes_nothing
              (L := Sample.libraries) (S := Sample.settings)
              (lit "changeme") 1 form Sample.now Sample.db1 eq_refl)
    as (_ & _ & _ & Hdb & Hresp); [discriminate | exact Hid |].
  split; [exact Hdb|].
  change (select_by_id Sample.db1 1) with (Some Sample.post1) in Hresp.
  exact (proj1 Hresp).
Defined.



Lemma save_derives_slug_and_html_witness :
  let form := Sample.new_post_form in
  let r := admin_blog_new (L := Sample.libraries) (S := Sample.settings)
             POST form Sample.now Sample.db1 in
  response r = Redirect (UrlBlogPost (lit "spring-listings"))
  ∧ ∃ p, posts (db_after r) = posts Sample.db1 ++ [p]
         ∧ saved_from (L := Sample.libraries) form p.
Proof.
  intros form r.
  assert (H1 : response r = Redirect (UrlBlogPost (lit "spring-listings")))
    by reflexivity.
  split; [exact H1|].
  exact (proj1 (save_derives_slug_and_html
                  (L := Sample.libraries) (S := Sample.settings)
                  form Sample.now Sample.db1) POST _ H1).
Defined.

Lemma admin_blog_edit_frame_witness :
  let form := Sample.new_post_form in
  let r := admin_blog_edit (L := Sample.libraries) (S := Sample.settings)
             1 POST form Sample.now Sample.db1 in
  response r = Redirect (UrlBlogPost (lit "spring-listings"))
  ∧ home_eval_leads (db_after r) = home_eval_leads Sample.db1
  ∧ length (posts (db_after r)) = length (posts Sample.db1).
Proof.
  intros form r.
  assert (H1 : response r = Redirect (UrlBlogPost (lit "spring-listings")))
    by reflexivity.
  split; [exact H1|].
  destruct (admin_blog_edit_frame
              (L := Sample.libraries) (S := Sample.settings)
              1 POST form Sample.now Sample.db1 _ H1)
    as (Hleads & _ & _ & Hlen & _).
  split; [exact Hleads | exact Hlen].
Defined.

Lemma name_chars_clean (tags : gset str) (s : str) :
  Forall (fun c => (c =? 0x3C)%N = false) (name_chars s) →
  name_chars (Filtering.clean tags s) = name_chars s.
Proof.
  induction s as [|c s IH]; [reflexivity|]. cbn [Filtering.clean].
  destruct (N.eqb_spec c 0x3C%N) as [->|Hc].
  - cbn. intros Hlt. inversion Hlt as [|? ? Hhead]. discriminate Hhead.
  - cbn [app name_chars]. destruct (ends_name c); [reflexivity|].
    intros Hlt. inversion Hlt. f_equal. now apply IH.
Qed.

(** The name read after a tag-open [<], once an optional [/] is passed. *)
Lemma tag_name_eq (s : str) :
  tag_name s
  = match (match s with
           | c :: r => if (c =? 0x2F)%N then r else s
           | [] => []
           end) with
    | c :: r => if is_alpha c then name_chars (c :: r) else []
    | [] => []
    end.
Proof.
  unfold tag_name. destruct s as [|c s]; [reflexivity|].
  destruct (c =? 0x2F)%N; [destruct s|]; reflexivity.
Qed.

Lemma filtered_head (tags : gset str) (c : N) (s : str) :
  ∃ d rest, Filtering.clean tags (c :: s) = d :: rest
            ∧ (c ≠ 0x3C%N → d = c)
            ∧ (c = 0x3C%N → is_alpha d = false ∧ d ≠ 0x2F%N).
Proof.
  cbn [Filtering.clean]. destruct (N.eqb_spec c 0x3C%N) as [->|Hc].
  - destruct (bool_decide _); do 2 eexists; (split; [reflexivity|]);
      (split; [congruence|]); intros _; (split; [reflexivity | discriminate]).
  - do 2 eexists. split; [reflexivity|]. split; congruence.
Qed.

Lemma plain_name_clean (tags : gset str) (s : str) :
  let plain t := match t with
                 | c :: r => if is_alpha c then name_chars (c :: r) else []
                 | [] => []
                 end in
  Forall (fun c => (c =? 0x3C)%N = false) (plain s) →
  plain (Filtering.clean tags s) = plain s.
Proof.
  intros plain. destruct s as [|c s]; [reflexivity|]. intros Hlt.
  destruct (N.eqb_spec c 0x3C%N) as [->|Hc].
  - destruct (filtered_head tags 0x3C%N s) as (d & rest & -> & _ & Hd).
    destruct (Hd eq_refl) as [Halpha _]. subst plain. cbv beta iota.
    now rewrite Halpha.
  - subst plain. cbv beta iota in *. cbn [Filtering.clean].
    apply N.eqb_neq in Hc. rewrite Hc. cbn [app].
    destruct (is_alpha c); [|reflexivity].
    pose proof (name_chars_clean tags (c :: s) Hlt) as Hname.
    cbn [Filtering.clean] in Hname. rewrite Hc in Hname. exact Hname.
Qed.

Lemma tag_name_clean (tags : gset str) (s : str) :
  Forall (fun c => (c =? 0x3C)%N = false) (tag_name s) →
  tag_name (Filtering.clean tags s) = tag_name s.
Proof.
  rewrite !tag_name_eq. destruct s as [|c s]; [reflexivity|].
  destruct (N.eqb_spec c 0x2F%N) as [->|Hslash].
  - cbn [Filtering.clean]. cbn [N.eqb Pos.eqb app]. apply plain_name_clean.
  - destruct (N.eqb_spec c 0x3C%N) as [->|Hc].
    + intros _. destruct (filtered_head tags 0x3C%N s) as (d & rest & -> & _ & Hd).
      destruct (Hd eq_refl) as [Halpha Hd'].
      apply N.eqb_neq in Hd'. now rewrite Hd', Halpha.
    + intros Hlt. pose proof (plain_name_clean tags (c :: s) Hlt) as Hplain.
      cbv zeta beta iota in Hplain. cbn [Filtering.clean] in *.
      apply N.eqb_neq in Hc. rewrite Hc in *. cbn [app] in *.
      apply N.eqb_neq in Hslash. rewrite Hslash. exact Hplain.
Qed.

Lemma tag_names_entity (s : str) : tag_names (lit "&lt;" ++ s) = tag_names s.
Proof. reflexivity. Qed.

(** The filtering sanitiser emits only tags of its allow-list, when no name
    on the list holds a [<]. *)
Lemma filtering_honours_allow_list (tags : gset str) :
  (∀ n, n ∈ tags → Forall (fun c => (c =? 0x3C)%N = false) n) →
  ∀ html name, has_tag name (Filtering.clean tags html) → name ∈ tags.
Proof.
  intros Hplain html name. unfold has_tag.
  induction html as [|c r IH]; cbn [Filtering.clean].
  - intros Hin. inversion Hin.
  - destruct (N.eqb_spec c 0x3C%N) as [->|Hc].
    + destruct (bool_decide_reflect (tag_name r ∈ tags)) as [Hin|Hout].
      * cbn [app tag_names]. cbn [N.eqb Pos.eqb].
        rewrite (tag_name_clean tags r (Hplain _ Hin)).
        rewrite elem_of_app. intros [Hhere|Hrest]; [|auto].
        destruct (tag_name r); [inversion Hhere|].
        apply list_elem_of_singleton in Hhere. now subst.
      * rewrite tag_names_entity. exact IH.
    + cbn [app tag_names]. apply N.eqb_neq in Hc. rewrite Hc. exact IH.
Qed.

Lemma filtering_honours_allowed_tags :
  bleach_honours_allowed_tags (L := Filtering.libraries).
Proof.
  intros html name. cbn [bleach_clean Filtering.libraries].
  apply filtering_honours_allow_list. intros n Hn.
  unfold allowed_tags in Hn. cbn [bleach_ALLOWED_TAGS Filtering.libraries] in Hn.
  rewrite !elem_of_union, !elem_of_singleton in Hn.
  repeat (destruct Hn as [Hn|Hn]); subst n; repeat constructor.
Qed.

Lemma stored_html_has_no_script_witness :
  bleach_honours_allowed_tags (L := Filtering.libraries)
  ∧ (lit "script" ∉ bleach_ALLOWED_TAGS (Libraries := Filtering.libraries))
  ∧ render_markdown (L := Filtering.libraries)
      (lit "<p>Hi <script>alert(1)</script> <b>there</b></p>")
    = lit "<p>Hi &lt;script>alert(1)&lt;/script> <b>there</b></p>"
  ∧ ¬ has_tag (lit "script")
        (render_markdown (L := Filtering.libraries)
           (lit "<p>Hi <script>alert(1)</script> <b>there</b></p>")).
Proof.
  assert (Hdefault :
    lit "script" ∉ bleach_ALLOWED_TAGS (Libraries := Filtering.libraries))
    by (apply (bool_decide_unpack _); vm_compute; exact I).
  split; [exact filtering_honours_allowed_tags|]. split; [exact Hdefault|].
  split; [vm_compute; reflexivity|].
  exact (proj1 (stored_html_has_no_script
                  (L := Filtering.libraries) (S := Sample.settings)
                  filtering_honours_allowed_tags Hdefault) _).
Defined.

(** * Further properties of the code *)

(** ** [strip] *)

Lemma lstrip_clean (s : str) : clean_start (lstrip s).
Proof.
  induction s as [|c s IH]; simpl; [exact I|].
  destruct (isspace c) eqn:Hc; [exact IH | exact Hc].
Qed.

Lemma lstrip_fixed (s : str) : clean_start s → lstrip s = s.
Proof. destruct s as [|c s]; simpl; [reflexivity|]. now intros ->. Qed.

Lemma lstrip_app (l m : str) :
  lstrip (l ++ m) = match lstrip l with [] => lstrip m | _ => lstrip l ++ m end.
Proof.
  induction l as [|c l IH]; simpl; [reflexivity|].
  destruct (isspace c); [exact IH | reflexivity].
Qed.

Lemma rstrip_clean_start (t : str) : clean_start t → clean_start (rstrip t).
Proof.
  destruct t as [|c t]; [intros _; exact I|]. simpl. intros Hc.
  unfold rstrip. simpl. rewrite lstrip_app. simpl. rewrite Hc.
  destruct (lstrip (rev t)) as [|d u]; simpl; [exact Hc|].
  rewrite rev_app_distr. simpl. exact Hc.
Qed.

(** A stripped string has no white space at its start or at its end. *)
Lemma strip_clean (s : str) :
  clean_start (strip s) ∧ clean_start (rev (strip s)).
Proof.
  unfold strip. split.
  - apply rstrip_clean_start, lstrip_clean.
  - unfold rstrip. rewrite rev_involutive. apply lstrip_clean.
Qed.

Lemma strip_fixed (s : str) :
  clean_start s → clean_start (rev s) → strip s = s.
Proof.
  intros Hs Hr. unfold strip, rstrip.
  rewrite (lstrip_fixed s Hs), (lstrip_fixed (rev s) Hr).
  apply rev_involutive.
Qed.

Lemma strip_idemp (s : str) : strip (strip s) = strip s.
Proof. apply strip_fixed; apply strip_clean. Qed.

(** ** What every reachable database satisfies *)

Lemma home_evaluation_eq (method : Method) (form : Form) (now : str) (db : DB) :
  home_evaluation method form now db
  = if is_post method then
      if negb (truthy (submitted form "full_name"))
         || negb (truthy (submitted form "email"))
         || negb (truthy (submitted form "address"))
      then
        mkReply (Render (HomeEvaluationPage (lead_data form)) 200)
                [lit "Name, email, and property address are required."] db
      else
        match insert_lead db (submitted form "full_name")
                (submitted form "email") (submitted form "phone")
                (submitted form "address") (submitted form "property_type")
                (submitted form "timeframe") (submitted form "notes") now with
        | inl e => mkReply (Raise e) [] db
        | inr db' =>
            mkReply
              (Redirect (UrlSchedule (submitted form "full_name")
                                     (submitted form "email")))
              [] db'
        end
    else mkReply (Render (HomeEvaluationPage []) 200) [] db.
Proof. reflexivity. Qed.

(** A request to /home-evaluation leaves the database alone or appends the
    lead it was sent. *)
Lemma home_evaluation_db (method : Method) (form : Form) (now : str) (db : DB) :
  let r := home_evaluation method form now db in
  db_after r = db
  ∨ (method = POST
     ∧ submitted form "full_name" ≠ [] ∧ submitted form "email" ≠ []
     ∧ submitted form "address" ≠ []
     ∧ insert_lead db (submitted form "full_name")
         (submitted form "email") (submitted form "phone")
         (submitted form "address") (submitted form "property_type")
         (submitted form "timeframe") (submitted form "notes") now
       = inr (db_after r)).
Proof.
  intros r. subst r. rewrite home_evaluation_eq.
  destruct method; cbn [is_post]; try now left.
  destruct (truthy (submitted form "full_name")) eqn:Hn; [|now left].
  destruct (truthy (submitted form "email")) eqn:He; [|now left].
  destruct (truthy (submitted form "address")) eqn:Ha; [|now left].
  cbn [negb orb].
  destruct (insert_lead _ _ _ _ _ _ _ _ _) as [e|db'] eqn:Hins; [now left|].
  right. apply truthy_nonempty in Hn, He, Ha. cbn [db_after]. auto 10.
Qed.

Lemma next_rowid_above (seq : Z) (ids : list Z) : seq < next_rowid seq ids.
Proof. unfold next_rowid. lia. Qed.

Lemma insert_lead_in_sequence (db db' : DB) (n e ph a pt tf nt c : str) :
  ids_in_sequence db → insert_lead db n e ph a pt tf nt c = inr db' →
  ids_in_sequence db'.
Proof.
  intros (Hposts & Hleads & Hp & Hl). unfold ids_in_sequence, insert_lead.
  destruct (rowid_exhausted _ _); [discriminate|]. intros [= <-].
  cbn [posts posts_seq home_eval_leads home_eval_leads_seq].
  pose proof (next_rowid_above (home_eval_leads_seq db)
                (List.map Lead.id (home_eval_leads db))) as Hnew.
  split; [exact Hposts|]. split; [|lia].
  apply Forall_app. split.
  - eapply Forall_impl; [exact Hleads|]. simpl. intros l Hl'. lia.
  - constructor; [|constructor]. cbn [Lead.id]. lia.
Qed.

Lemma submitted_lead_ok (db db' : DB) (form : Form) (now : str) :
  submitted form "full_name" ≠ [] → submitted form "email" ≠ [] →
  submitted form "address" ≠ [] →
  Forall lead_ok (home_eval_leads db) →
  insert_lead db (submitted form "full_name")
    (submitted form "email") (submitted form "phone")
    (submitted form "address") (submitted form "property_type")
    (submitted form "timeframe") (submitted form "notes") now
  = inr db' →
  Forall lead_ok (home_eval_leads db').
Proof.
  intros Hn He Ha Hold. unfold insert_lead.
  destruct (rowid_exhausted _ _); [discriminate|]. intros [= <-].
  cbn [home_eval_leads].
  apply Forall_app. split; [exact Hold|]. constructor; [|constructor].
  unfold lead_ok. cbn [Lead.full_name Lead.email Lead.address].
  unfold submitted in *. rewrite !strip_idemp. auto 10.
Qed.

Section Reachable.
Context {L : Libraries} {S : Settings}.

Lemma insert_submitted_in_sequence (form : Form) (now : str) (db db' : DB) :
  ids_in_sequence db → insert_submitted form now db = inr db' →
  ids_in_sequence db'.
Proof.
  intros (Hposts & Hleads & Hp & Hl) Hins.
  apply insert_submitted_inr in Hins
    as (_ & Hl1 & Hl2 & p & Hrows & Hseq & Hid & _).
  pose proof (next_rowid_above (posts_seq db) (Post.id <$> posts db)) as Hnew.
  unfold ids_in_sequence. rewrite Hrows, Hl1, Hl2, Hseq, Hid.
  split; [|split; [exact Hleads | lia]].
  apply Forall_app. split.
  - eapply Forall_impl; [exact Hposts|]. simpl. intros q Hq. lia.
  - constructor; [|constructor]. lia.
Qed.

Lemma update_submitted_in_sequence (post_id : Z) (form : Form) (now : str)
    (db db' : DB) :
  ids_in_sequence db → update_submitted post_id form now db = inr db' →
  ids_in_sequence db'.
Proof.
  intros (Hposts & Hleads & Hp & Hl) Hupd.
  apply update_submitted_inr in Hupd as (Hl1 & Hl2 & Hseq & Hrows & _).
  unfold ids_in_sequence. rewrite Hrows, Hl1, Hl2, Hseq.
  split; [|auto]. apply Forall_fmap.
  eapply Forall_impl; [exact Hposts|]. simpl. intros q Hq.
  now rewrite edit_row_id.
Qed.

(** One request keeps a consistent database consistent. *)
Lemma dispatch_consistent (req : Request) (now : str) (db : DB) :
  consistent db → consistent (db_after (dispatch req now db)).
Proof.
  intros Hall. pose proof Hall as (Hok & Hseq & Hder & Hleads).
  destruct req as [method form|method form|post_id method form];
    cbn [dispatch].
  - destruct (home_evaluation_db method form now db)
      as [->|(_ & Hn & He & Ha & Hins)]; [exact Hall|].
    split; [eauto using insert_lead_ok|].
    split; [eauto using insert_lead_in_sequence|].
    split; [|eauto using submitted_lead_ok].
    revert Hins. unfold insert_lead.
    destruct (rowid_exhausted _ _); [discriminate|]. now intros [= <-].
  - pose proof (admin_blog_new_rows method form now db) as Hrows.
    destruct (admin_blog_new_db method form now db) as [Heq|Hins].
    + rewrite Heq. exact Hall.
    + split; [eauto using insert_submitted_ok|].
      split; [eauto using insert_submitted_in_sequence|]. split.
      * apply Forall_forall. intros p [Hp|Hp]%Hrows.
        -- now apply (proj1 (Forall_forall _ _) Hder).
        -- eapply saved_from_derived, Hp.
      * apply insert_submitted_inr in Hins as (_ & -> & _). exact Hleads.
  - pose proof (admin_blog_edit_rows post_id method form now db) as Hrows.
    destruct (admin_blog_edit_db post_id method form now db) as [Heq|Hupd].
    + rewrite Heq. exact Hall.
    + split; [eauto using update_submitted_ok|].
      split; [eauto using update_submitted_in_sequence|]. split.
      * apply Forall_forall. intros p [Hp|Hp]%Hrows.
        -- now apply (proj1 (Forall_forall _ _) Hder).
        -- eapply saved_from_derived, Hp.
      * apply update_submitted_inr in Hupd as (-> & _). exact Hleads.
Qed.

Lemma serve_consistent (reqs : list (Request * str)) (db : DB) :
  consistent db → consistent (serve reqs db).
Proof.
  revert db. induction reqs as [|[req now] reqs IH]; intros db Hdb;
    cbn [serve]; [exact Hdb|].
  apply IH, dispatch_consistent, Hdb.
Qed.

(** X2: whatever requests the writing routes have served since the tables
    were created, primary keys and slugs are pairwise distinct, row ids are
    positive and within the AUTOINCREMENT counter, every post's slug and
    content_html are derived from its title and content_md, and every lead
    has a name, an email and an address that are trimmed and not empty. *)
Theorem served_database_consistent (reqs : list (Request * str)) :
  consistent (serve reqs init_db).
Proof.
  apply serve_consistent. split; [apply init_db_ok|].
  split; [|split; constructor].
  repeat split; try constructor; reflexivity.
Qed.

End Reachable.

Lemma handlers_keep_constraints_witness :
  db_ok Sample.db1
  ∧ db_ok (db_after (admin_blog_new (L := Sample.libraries)
                       (S := Sample.settings) POST Sample.new_post_form
                       Sample.now Sample.db1)).
Proof.
  assert (Hok : db_ok Sample.db1)
    by (apply (bool_decide_unpack _); vm_compute; exact I).
  split; [exact Hok|].
  exact (proj1 (proj2 (handlers_keep_constraints
                         (L := Sample.libraries) (S := Sample.settings)
                         1 POST Sample.new_post_form Sample.now Sample.db1
                         Hok))).
Defined.

(** ** Nothing is deleted *)

Section AppendOnly.
Context {L : Libraries} {S : Settings}.

Lemma edit_rows_birth (post_id : Z) (form : Form) (now : str)
    (rows : list Post.t) :
  birth <$> (edit_row post_id form now <$> rows) = birth <$> rows.
Proof.
  rewrite <- list_fmap_compose. apply list_fmap_ext. intros i q _.
  unfold birth. simpl. now rewrite edit_row_id, edit_row_created_at.
Qed.

Lemma dispatch_appends (req : Request) (now : str) (db : DB) :
  home_eval_leads db `prefix_of` home_eval_leads (db_after (dispatch req now db))
  ∧ (birth <$> posts db)
      `prefix_of` (birth <$> posts (db_after (dispatch req now db))).
Proof.
  destruct req as [method form|method form|post_id method form];
    cbn [dispatch].
  - destruct (home_evaluation_db method form now db)
      as [->|(_ & _ & _ & _ & Hins)]; [done|].
    revert Hins. unfold insert_lead.
    destruct (rowid_exhausted _ _); [discriminate|]. intros [= <-].
    cbn [home_eval_leads posts].
    split; [now apply prefix_app_r | done].
  - destruct (admin_blog_new_db method form now db) as [->|Hins]; [done|].
    apply insert_submitted_inr in Hins as (_ & -> & _ & p & -> & _).
    split; [done|]. rewrite fmap_app. now apply prefix_app_r.
  - destruct (admin_blog_edit_db post_id method form now db) as [->|Hupd];
      [done|].
    apply update_submitted_inr in Hupd as (-> & _ & _ & -> & _).
    split; [done|]. now rewrite edit_rows_birth.
Qed.

(** X3: no sequence of requests deletes or alters a lead, deletes a post,
    or changes the id or created_at of a post: the leads before are a
    prefix of the leads after, and so are the (id, created_at) pairs of the
    posts. *)
Theorem nothing_is_deleted (reqs : list (Request * str)) (db : DB) :
  home_eval_leads db `prefix_of` home_eval_leads (serve reqs db)
  ∧ (birth <$> posts db) `prefix_of` (birth <$> posts (serve reqs db)).
Proof.
  revert db. induction reqs as [|[req now] reqs IH]; intros db;
    cbn [serve]; [done|].
  destruct (dispatch_appends req now db) as [Hl Hp].
  destruct (IH (db_after (dispatch req now db))) as [Hl' Hp'].
  split; etrans; eauto.
Qed.

Lemma check_admin_true (pw : str) :
  check_admin pw = inr true → ADMIN_PASSWORD = Some pw.
Proof.
  unfold check_admin. destruct ADMIN_PASSWORD as [admin|]; [|discriminate].
  intros [= Heq]. apply str_eqb_eq in Heq. now subst.
Qed.

(** X4: a request changes the database only if it is a POST and, on
    /home-evaluation, carries a name, an email and an address that are not
    blank, or, on the admin routes, carries exactly the configured
    password; so GET and HEAD requests never write. *)
Theorem write_needs_post_and_password (req : Request) (now : str) (db : DB) :
  db_after (dispatch req now db) ≠ db →
  request_method req = POST ∧ may_write req.
Proof.
  destruct req as [method form|method form|post_id method form];
    cbn [dispatch request_method may_write]; intros Hchanged.
  - destruct (home_evaluation_db method form now db)
      as [Heq|(Hm & Hn & He & Ha & _)]; [contradiction | auto].
  - revert Hchanged. rewrite admin_blog_new_eq.
    destruct method; cbn [is_post db_after]; try congruence.
    destruct (check_admin _) as [e|[|]] eqn:Hpw; cbn [db_after];
      try congruence.
    intros _. split; [reflexivity | now apply check_admin_true].
  - revert Hchanged. rewrite admin_blog_edit_eq.
    destruct (select_by_id db post_id); cbn [db_after]; try congruence.
    destruct method; cbn [is_post db_after]; try congruence.
    destruct (check_admin _) as [e|[|]] eqn:Hpw; cbn [db_after];
      try congruence.
    intros _. split; [reflexivity | now apply check_admin_true].
Qed.

(** X5: an edit request for an id that SQLite can hold and that no post
    has is answered with the 404 page, whatever its method, form and
    password, and writes nothing. *)
Theorem admin_blog_edit_unknown_id
    (post_id : Z) (method : Method) (form : Form) (now : str) (db : DB) :
  sqlite_integer post_id →
  (∀ p, p ∈ posts db → Post.id p ≠ post_id) →
  admin_blog_edit post_id method form now db
  = mkReply (Render NotFoundPage 404) [] db.
Proof.
  intros _ Hnone. rewrite admin_blog_edit_eq.
  destruct (select_by_id db post_id) as [row|] eqn:Hrow; [|reflexivity].
  apply find_Some_elem in Hrow as [Hin Hid]. apply Z.eqb_eq in Hid.
  now destruct (Hnone row Hin).
Qed.

(** X6: under the primary-key constraint, a GET (or HEAD) of the edit page
    of a stored post shows the form filled from that very row, flashes
    nothing and writes nothing. *)
Theorem admin_blog_edit_shows_stored_row
    (p : Post.t) (method : Method) (form : Form) (now : str) (db : DB) :
  db_ok db → p ∈ posts db → method ≠ POST →
  admin_blog_edit (Post.id p) method form now db
  = mkReply (Render (AdminPostEditPage (FormRow p) ModeEdit (Some p)) 200)
            [] db.
Proof.
  intros (Hids & _) Hp Hmethod. rewrite admin_blog_edit_eq.
  destruct (select_by_id db (Post.id p)) as [row|] eqn:Hrow.
  - apply find_Some_elem in Hrow as [Hin Hid]. apply Z.eqb_eq in Hid.
    assert (row = p) by eauto using unique_column. subst row.
    now destruct method.
  - unfold select_by_id in Hrow.
    pose proof (find_none _ _ Hrow p (proj1 (list_elem_of_In _ _) Hp)) as Hno.
    cbv beta in Hno.
    apply Z.eqb_neq in Hno. contradiction.
Qed.

(** X7: when the admin password was never bound, every POST to the create
    route, and every POST to the edit route of a stored post, raises
    NameError and writes nothing. *)
Theorem admin_post_without_password_setting
    (post_id : Z) (form : Form) (now : str) (db : DB) :
  ADMIN_PASSWORD = None →
  admin_blog_new POST form now db = mkReply (Raise NameError) [] db
  ∧ (∀ row, select_by_id db post_id = Some row →
       admin_blog_edit post_id POST form now db
       = mkReply (Raise NameError) [] db).
Proof.
  intros Hunset.
  assert (Hpw : ∀ pw, check_admin pw = inl NameError)
    by (intros pw; unfold check_admin; now rewrite Hunset).
  split.
  - rewrite admin_blog_new_eq. cbn [is_post]. now rewrite Hpw.
  - intros row Hrow. rewrite admin_blog_edit_eq, Hrow. cbn [is_post].
    now rewrite Hpw.
Qed.

End AppendOnly.

(** ** Listings are ordered *)

Lemma str_leb_total (a b : str) : str_leb a b = false → str_leb b a = true.
Proof.
  revert b; induction a as [|x a IH]; intros [|y b]; simpl; try easy.
  destruct (N.ltb_spec x y), (N.ltb_spec y x); try easy; try lia.
  apply IH.
Qed.

Lemma str_leb_trans (a b c : str) :
  str_leb a b = true → str_leb b c = true → str_leb a c = true.
Proof.
  revert b c; induction a as [|x a IH]; intros [|y b] [|z c]; simpl;
    try easy.
  destruct (N.ltb_spec x y), (N.ltb_spec y x), (N.ltb_spec y z),
    (N.ltb_spec z y), (N.ltb_spec x z), (N.ltb_spec z x);
    try easy; try lia.
  apply IH.
Qed.

Lemma sql_leb_total (a b : option str) :
  sql_leb a b = false → sql_leb b a = true.
Proof. destruct a, b; simpl; try easy. apply str_leb_total. Qed.

Lemma sql_leb_trans (a b c : option str) :
  sql_leb a b = true → sql_leb b c = true → sql_leb a c = true.
Proof. destruct a, b, c; simpl; try easy. apply str_leb_trans. Qed.

Section Ordered.
Context {A : Type} (key : A → option str).

Lemma insert_desc_sorted (x : A) (l : list A) :
  StronglySorted (not_older key) l →
  StronglySorted (not_older key) (insert_desc key x l).
Proof.
  induction 1 as [|y l Hl IH Hy]; simpl; [repeat constructor|].
  destruct (sql_leb (key y) (key x)) eqn:Hyx.
  - constructor; [now constructor|]. constructor; [exact Hyx|].
    eapply Forall_impl; [exact Hy|]. intros z Hz. unfold not_older in *.
    eapply sql_leb_trans; eauto.
  - constructor; [exact IH|]. rewrite insert_desc_perm.
    constructor; [|exact Hy]. now apply sql_leb_total.
Qed.

Lemma order_by_desc_sorted (l : list A) :
  StronglySorted (not_older key) (order_by_desc key l).
Proof.
  induction l as [|x l IH]; simpl; [constructor|].
  now apply insert_desc_sorted.
Qed.

End Ordered.

Section Listings.
Context {L : Libraries}.

(** X8: the GET /blog listing holds every published post exactly once and
    nothing else, ordered so that no row comes before a row whose
    [datetime(created_at)] is greater. *)
Theorem blog_index_newest_first (db : DB) :
  ∃ rows,
    blog_index db = Render (BlogIndexPage rows) 200
    ∧ rows ≡ₚ listing_of <$> List.filter is_published (posts db)
    ∧ StronglySorted
        (not_older (fun r => sqlite_datetime (Listing.created_at r))) rows.
Proof.
  eexists. split; [reflexivity|]. split.
  - change (List.map listing_of ?l) with (listing_of <$> l).
    now rewrite order_by_desc_perm.
  - change (List.map listing_of ?l) with (listing_of <$> l).
    eapply StronglySorted_fmap; [|apply order_by_desc_sorted].
    intros x y Hxy. exact Hxy.
Qed.

End Listings.

(** X9: the home page shows the published posts with the three greatest
    created_at values (all of them when there are fewer), greatest first:
    the rows shown and the published rows left out make up the published
    posts, and no row left out has a created_at above that of a row
    shown. *)
Theorem home_shows_three_newest (db : DB) :
  ∃ shown rest,
    home db = latest_of <$> shown
    ∧ shown ++ rest ≡ₚ List.filter is_published (posts db)
    ∧ length shown
      = Nat.min 3 (length (List.filter is_published (posts db)))
    ∧ StronglySorted (not_older (fun p => Some (Post.created_at p))) shown
    ∧ ∀ a b, a ∈ shown → b ∈ rest →
             str_leb (Post.created_at b) (Post.created_at a) = true.
Proof.
  exists (take 3 (published_newest_first db)),
         (drop 3 (published_newest_first db)).
  pose proof (order_by_desc_sorted (fun p => Some (Post.created_at p))
                (List.filter is_published (posts db))) as Hsorted.
  fold (published_newest_first db) in Hsorted.
  rewrite <- (take_drop 3 (published_newest_first db)) in Hsorted.
  apply StronglySorted_app in Hsorted as (Hcross & Hshown & _).
  split; [reflexivity|]. split; [|split; [|split]].
  - rewrite take_drop. apply order_by_desc_perm.
  - rewrite length_take. f_equal. unfold published_newest_first.
    now rewrite order_by_desc_perm.
  - exact Hshown.
  - intros a b Ha Hb. exact (Hcross a b Ha Hb).
Qed.

(** ** Saving, then following the redirect *)

Lemma find_snoc_none {A} (f : A → bool) (l : list A) (x : A) :
  (∀ y, y ∈ l → f y = false) →
  List.find f (l ++ [x]) = if f x then Some x else None.
Proof.
  induction l as [|y l IH]; intros Hall; simpl; [reflexivity|].
  rewrite (Hall y) by left. apply IH. intros z Hz. apply Hall. now right.
Qed.

Lemma find_ext_elem {A} (f g : A → bool) (l : list A) :
  (∀ y, y ∈ l → f y = g y) → List.find f l = List.find g l.
Proof.
  induction l as [|y l IH]; intros Hall; simpl; [reflexivity|].
  rewrite (Hall y) by left. destruct (g y); [reflexivity|].
  apply IH. intros z Hz. apply Hall. now right.
Qed.

Lemma find_fmap {A B} (f : A → B) (g : B → bool) (l : list A) :
  List.find g (f <$> l) = f <$> List.find (fun x => g (f x)) l.
Proof.
  induction l as [|y l IH]; simpl; [reflexivity|].
  destruct (g (f y)); [reflexivity | exact IH].
Qed.

Lemma published_flag_cases (form : Form) :
  published_flag form = 1 ∨ published_flag form = 0.
Proof.
  unfold published_flag. destruct (form_lookup _ _) as [v|]; [|now right].
  destruct (str_eqb v (lit "on")); auto.
Qed.

Section FollowRedirect.
Context {L : Libraries} {S : Settings}.

(** The detail view on a row found by its query. *)
Lemma blog_post_found (db : DB) (slug : str) (p : Post.t) :
  select_published db slug = Some (detail_of p) →
  blog_post db slug
  = if truthy (strip (Post.content_html p)) then ReturnNone
    else if truthy (Post.content_md p) then
      Render (BlogPostPage (detail_of p) (render_markdown (Post.content_md p))
                           (UrlAdminBlogEdit (Post.id p))) 200
    else ReturnNone.
Proof.
  intros Hsel. unfold blog_post. rewrite Hsel, py_or_empty.
  cbn [detail_of Detail.content_html Detail.content_md Detail.id].
  now destruct (truthy (strip _)), (truthy (Post.content_md p)).
Qed.

(** X10: after a create request that succeeded, the page it redirects to
    is the new post's.  When "published" was not ticked that page is a 404.
    When it was, the detail query finds the new row, and the view returns
    nothing as soon as the stored HTML is not blank; it renders the post
    only when [render_markdown] gave blank HTML. *)
Theorem created_post_behind_redirect
    (method : Method) (form : Form) (now : str) (db : DB) (u : Url) :
  let r := admin_blog_new method form now db in
  response r = Redirect u →
  ∃ p, posts (db_after r) = posts db ++ [p]
       ∧ saved_from form p
       ∧ u = UrlBlogPost (Post.slug p)
       ∧ (published_flag form = 0 →
          blog_post (db_after r) (Post.slug p) = Abort 404)
       ∧ (published_flag form = 1 →
          select_published (db_after r) (Post.slug p) = Some (detail_of p)
          ∧ blog_post (db_after r) (Post.slug p)
            = if truthy (strip (Post.content_html p)) then ReturnNone
              else Render (BlogPostPage (detail_of p)
                             (render_markdown (Post.content_md p))
                             (UrlAdminBlogEdit (Post.id p))) 200).
Proof.
  intros r Hok.
  apply admin_blog_new_redirect in Hok as (_ & _ & _ & Hmd & Hins & ->).
  fold r in Hins.
  apply insert_submitted_inr in Hins
    as (Hfree & _ & _ & p & Hrows & _ & _ & Hsaved & _).
  pose proof Hsaved as (Ht & Hslug & _ & Hcm & _ & _ & Hpub).
  exists p. split; [exact Hrows|]. split; [exact Hsaved|].
  split; [now rewrite Hslug|].
  assert (Hfind :
    List.find (fun q => str_eqb (Post.slug q) (Post.slug p) && is_published q)
              (posts (db_after r))
    = if is_published p then Some p else None).
  { rewrite Hrows, find_snoc_none.
    - now rewrite (proj2 (str_eqb_eq _ _) eq_refl).
    - intros q Hq. rewrite slug_taken_false in Hfree.
      apply andb_false_iff. left. apply str_eqb_neq.
      rewrite Hslug. now apply Hfree. }
  split; intros Hflag.
  - unfold blog_post, select_published. rewrite Hfind.
    unfold is_published. now rewrite Hpub, Hflag.
  - assert (Hsel :
      select_published (db_after r) (Post.slug p) = Some (detail_of p)).
    { unfold select_published. rewrite Hfind. unfold is_published.
      now rewrite Hpub, Hflag. }
    split; [exact Hsel|]. rewrite (blog_post_found _ _ p Hsel).
    rewrite Hcm. apply truthy_nonempty in Hmd. now rewrite Hmd.
Qed.

(** X11: after an edit request that succeeded, the detail query on the
    slug it redirects to finds the edited row when "published" was ticked
    and finds nothing (the page is a 404) when it was not. *)
Theorem edited_post_behind_redirect
    (post_id : Z) (method : Method) (form : Form) (now : str) (db : DB)
    (u : Url) :
  let r := admin_blog_edit post_id method form now db in
  response r = Redirect u →
  ∃ row, select_by_id db post_id = Some row
         ∧ u = UrlBlogPost (slugify (submitted form "title"))
         ∧ (published_flag form = 0 →
            blog_post (db_after r) (slugify (submitted form "title"))
            = Abort 404)
         ∧ (published_flag form = 1 →
            select_published (db_after r) (slugify (submitted form "title"))
            = Some (detail_of (set_submitted form now row))).
Proof.
  intros r Hok.
  apply admin_blog_edit_redirect in Hok
    as (_ & (row & Hrow) & _ & Hupd & ->).
  fold r in Hupd.
  apply update_submitted_inr in Hupd as (_ & _ & _ & Hrows & Hfree).
  pose proof (find_Some_elem _ _ _ Hrow) as [Hin Hid].
  apply Z.eqb_eq in Hid.
  assert (Hfree' : ∀ q, q ∈ posts db → Post.id q ≠ post_id →
                        Post.slug q ≠ slugify (submitted form "title"))
    by (apply Hfree; eauto).
  exists row. split; [exact Hrow|]. split; [reflexivity|].
  assert (Hfind :
    List.find (fun q => str_eqb (Post.slug q)
                                (slugify (submitted form "title"))
                        && is_published q)
              (posts (db_after r))
    = if published_flag form =? 1
      then Some (set_submitted form now row) else None).
  { rewrite Hrows, find_fmap.
    rewrite (find_ext_elem _
               (fun q => (Post.id q =? post_id)
                         && (published_flag form =? 1))).
    - destruct (published_flag form =? 1).
      + rewrite (find_ext_elem _ (fun q => Post.id q =? post_id))
          by (intros; apply andb_true_r).
        fold (select_by_id db post_id). rewrite Hrow. simpl.
        now rewrite edit_row_same.
      + rewrite (find_ext_elem _ (fun _ => false))
          by (intros; apply andb_false_r).
        clear. induction (posts db); simpl; auto.
    - intros q Hq. unfold edit_row.
      destruct (Z.eqb_spec (Post.id q) post_id) as [Heq|Hne].
      + cbn. now rewrite (proj2 (str_eqb_eq _ _) eq_refl).
      + cbn. apply andb_false_iff. left. apply str_eqb_neq. auto. }
  split; intros Hflag.
  - unfold blog_post, select_published. rewrite Hfind, Hflag. reflexivity.
  - unfold select_published. rewrite Hfind, Hflag. reflexivity.
Qed.

(** X12: an edit whose title slugifies to the slug of another post fails
    the uniqueness constraint: IntegrityError is raised and nothing is
    written. *)
Theorem admin_blog_edit_slug_collision
    (post_id : Z) (form : Form) (now : str) (db : DB) (row other : Post.t) :
  select_by_id db post_id = Some row →
  check_admin (form_get form (lit "password") []) = inr true →
  other ∈ posts db → Post.id other ≠ post_id →
  Post.slug other = slugify (submitted form "title") →
  admin_blog_edit post_id POST form now db
  = mkReply (Raise IntegrityError) [] db.
Proof.
  intros Hrow Hpw Hother Hid Hslug.
  rewrite (admin_blog_edit_saves _ _ _ _ _ Hrow Hpw).
  unfold update_submitted, update_post.
  assert (existsb (fun p => Post.id p =? post_id) (posts db) = true) as ->.
  { apply existsb_true_elem. exists row.
    now apply find_Some_elem in Hrow. }
  assert (existsb (fun p => negb (Post.id p =? post_id)
                            && str_eqb (Post.slug p)
                                 (slugify (submitted form "title")))
                  (posts db) = true) as ->.
  { apply existsb_true_elem. exists other. split; [exact Hother|].
    apply Z.eqb_neq in Hid. rewrite Hid. cbn. now apply str_eqb_eq. }
  reflexivity.
Qed.

(** X13: under the schema's constraints, saving a stored post again under
    a title with the slug it already has never collides with the post
    itself: the UPDATE goes through and the reply is the redirect. *)
Theorem admin_blog_edit_keeps_own_slug
    (p : Post.t) (form : Form) (now : str) (db : DB) :
  db_ok db → p ∈ posts db →
  check_admin (form_get form (lit "password") []) = inr true →
  slugify (submitted form "title") = Post.slug p →
  let r := admin_blog_edit (Post.id p) POST form now db in
  response r = Redirect (UrlBlogPost (Post.slug p))
  ∧ posts (db_after r) = edit_row (Post.id p) form now <$> posts db.
Proof.
  intros (Hids & Hslugs & _) Hp Hpw Hslug r.
  assert (Hrow : ∃ row, select_by_id db (Post.id p) = Some row).
  { unfold select_by_id.
    destruct (List.find _ _) as [row|] eqn:Hfind; [eauto|].
    pose proof (find_none _ _ Hfind p (proj1 (list_elem_of_In _ _) Hp))
      as Hno.
    cbv beta in Hno. apply Z.eqb_neq in Hno. contradiction. }
  destruct Hrow as [row Hrow].
  assert (Hfree :
    existsb (fun q => negb (Post.id q =? Post.id p)
                      && str_eqb (Post.slug q)
                           (slugify (submitted form "title")))
            (posts db) = false).
  { apply existsb_false_elem. intros q Hq.
    destruct (Z.eqb_spec (Post.id q) (Post.id p)) as [Heq|Hne];
      [reflexivity|].
    cbn. apply str_eqb_neq. rewrite Hslug. intros Hsame.
    apply Hne. f_equal. eauto using unique_column. }
  subst r. rewrite (admin_blog_edit_saves _ _ _ _ _ Hrow Hpw).
  unfold update_submitted, update_post. rewrite Hfree, andb_false_r.
  cbn [response db_after posts]. split; [now rewrite Hslug | reflexivity].
Qed.

End FollowRedirect.

(** ** URL quoting *)

Lemma lor_below_pow2 (a b n : N) :
  (a < 2 ^ n → b < 2 ^ n → N.lor a b < 2 ^ n)%N.
Proof.
  intros Ha Hb.
  destruct (N.eq_dec a 0%N) as [->|Ha0]; [now rewrite N.lor_0_l|].
  destruct (N.eq_dec b 0%N) as [->|Hb0]; [now rewrite N.lor_0_r|].
  assert (N.lor a b ≠ 0%N) as Hor
    by (intros Heq; apply N.lor_eq_0_iff in Heq; tauto).
  apply N.log2_lt_pow2; [lia|]. rewrite N.log2_lor.
  apply N.log2_lt_pow2 in Ha; [|lia]. apply N.log2_lt_pow2 in Hb; [|lia].
  lia.
Qed.

Lemma low_six_bits (x : N) : (N.land x 0x3F < 64)%N.
Proof.
  change 0x3F%N with (N.ones 6). rewrite N.land_ones.
  now apply N.mod_upper_bound.
Qed.

Lemma shiftr_below (c k bound : N) :
  (c < 2 ^ k * bound → N.shiftr c k < bound)%N.
Proof.
  intros Hc. rewrite N.shiftr_div_pow2.
  now apply N.Div0.div_lt_upper_bound.
Qed.

Ltac byte_bound :=
  apply (lor_below_pow2 _ _ 8);
  [ exact eq_refl
  | first [ eapply N.lt_trans; [apply low_six_bits | exact eq_refl]
          | apply shiftr_below; lia ] ].

(** UTF-8 yields bytes. *)
Lemma utf8_encode_char_bytes (c : N) (bs : list N) :
  utf8_encode_char c = Some bs → Forall (fun b => (b < 256)%N) bs.
Proof.
  unfold utf8_encode_char.
  destruct (N.ltb_spec c 0x80%N) as [H1|H1].
  { intros [= <-]. repeat constructor. lia. }
  destruct (N.ltb_spec c 0x800%N) as [H2|H2].
  { intros [= <-]. repeat constructor; byte_bound. }
  destruct (N.ltb_spec c 0x10000%N) as [H3|H3].
  { destruct (_ && _); [discriminate|]. intros [= <-].
    repeat constructor; byte_bound. }
  destruct (N.ltb_spec c 0x110000%N) as [H4|H4]; [|discriminate].
  intros [= <-]. repeat constructor; byte_bound.
Qed.

Lemma utf8_encode_bytes (s : str) (bs : list N) :
  utf8_encode s = Some bs → Forall (fun b => (b < 256)%N) bs.
Proof.
  revert bs. induction s as [|c s IH]; simpl; intros bs.
  - intros [= <-]. constructor.
  - destruct (utf8_encode_char c) as [b1|] eqn:Hc; [|discriminate].
    destruct (utf8_encode s) as [rest|]; [|discriminate].
    intros [= <-]. apply Forall_app_2; [|now apply IH].
    now apply (utf8_encode_char_bytes c).
Qed.

Lemma hex_digit_safe (n : N) : (n < 16)%N → always_safe (hex_digit n) = true.
Proof.
  intros Hn.
  assert (n ∈ [0;1;2;3;4;5;6;7;8;9;10;11;12;13;14;15]%N) as Hcases.
  { rewrite !elem_of_cons. lia. }
  rewrite !elem_of_cons, elem_of_nil in Hcases.
  repeat (destruct Hcases as [->|Hcases]; [reflexivity|]). contradiction.
Qed.

Lemma quote_byte_alphabet (b : N) :
  (b < 256)%N → Forall (fun c => quoted_char c = true) (quote_byte b).
Proof.
  intros Hb. unfold quote_byte.
  destruct (always_safe b) eqn:Hsafe.
  - repeat constructor. unfold quoted_char. now rewrite Hsafe.
  - destruct (b =? 0x20)%N; [repeat constructor|].
    assert (b / 16 < 16)%N by (apply N.Div0.div_lt_upper_bound; lia).
    assert (b mod 16 < 16)%N by (now apply N.mod_upper_bound).
    repeat constructor; unfold quoted_char; now rewrite hex_digit_safe.
Qed.

Lemma quote_plus_chars (s q : str) :
  quote_plus s = Some q → Forall (fun c => quoted_char c = true) q.
Proof.
  unfold quote_plus. destruct (utf8_encode s) as [bs|] eqn:Hbs; [|discriminate].
  intros [= <-]. apply utf8_encode_bytes in Hbs.
  induction Hbs as [|b bs Hb _ IH]; simpl; [constructor|].
  apply Forall_app_2; [now apply quote_byte_alphabet | exact IH].
Qed.

(** X14: whatever [quote_plus] returns is made of letters, digits and the
    characters [_ . - ~ + %] only; in particular it holds no [&], [=], [#],
    [?], [/], space or non-ASCII character. *)
Theorem quote_plus_alphabet (s q : str) :
  quote_plus s = Some q → Forall (fun c => quoted_char c = true) q.
Proof. apply quote_plus_chars. Qed.

Lemma utf8_encode_char_scalar (c : N) :
  is_Some (utf8_encode_char c) ↔ scalar_value c = true.
Proof.
  unfold utf8_encode_char, scalar_value.
  destruct (N.ltb_spec c 0x80%N), (N.ltb_spec c 0x800%N),
    (N.ltb_spec c 0x10000%N), (N.ltb_spec c 0x110000%N),
    (N.leb_spec 0xD800%N c), (N.leb_spec c 0xDFFF%N),
    (N.ltb_spec c 0xD800%N), (N.ltb_spec 0xDFFF%N c);
    simpl; try lia; split; intros Hs; try easy; try (now eexists);
    destruct Hs; discriminate.
Qed.

(** [quote_plus] raises exactly on strings that hold a code point which is
    not a Unicode scalar value (a surrogate, or a number above U+10FFFF). *)
Lemma quote_plus_is_Some (s : str) :
  is_Some (quote_plus s) ↔ Forall (fun c => scalar_value c = true) s.
Proof.
  unfold quote_plus.
  assert (is_Some (utf8_encode s)
          ↔ Forall (fun c => scalar_value c = true) s) as <-.
  { induction s as [|c s IH]; simpl.
    - split; [constructor | now eexists].
    - rewrite Forall_cons, <- IH, <- utf8_encode_char_scalar.
      destruct (utf8_encode_char c), (utf8_encode s); split;
        try (intros [? [=]]); try (now intros [[? [=]] _]);
        try (now intros [_ [? [=]]]); try (now eexists);
        intros _; split; now eexists. }
  destruct (utf8_encode s); split; try (intros [? [=]]); now eexists.
Qed.

(** A string of letters, digits and [_ . - ~] is quoted as itself. *)
Lemma quote_plus_safe_unchanged (s : str) :
  Forall (fun c => always_safe c = true) s → quote_plus s = Some s.
Proof.
  intros Hsafe. unfold quote_plus.
  assert (utf8_encode s = Some s) as ->.
  { induction Hsafe as [|c s Hc _ IH]; simpl; [reflexivity|].
    rewrite IH. unfold utf8_encode_char.
    destruct (N.ltb_spec c 0x80%N) as [_|Hbig]; [reflexivity|].
    exfalso. revert Hc. unfold always_safe, is_alpha.
    repeat (rewrite ?orb_true_iff, ?andb_true_iff, ?N.leb_le, ?N.eqb_eq).
    lia. }
  f_equal. induction Hsafe as [|c s Hc _ IH]; simpl; [reflexivity|].
  unfold quote_byte at 1. rewrite Hc. simpl. now rewrite IH.
Qed.

(** ** The scheduling URL *)

Lemma query_items_fixed : query_items fixed_params = Some fixed_items.
Proof. vm_compute. reflexivity. Qed.

Lemma join_fixed_items : join (lit "&") fixed_items = fixed_query.
Proof. vm_compute. reflexivity. Qed.

Lemma query_items_app (a b : Form) :
  query_items (a ++ b)
  = match query_items a, query_items b with
    | Some x, Some y => Some (x ++ y)
    | _, _ => None
    end.
Proof.
  induction a as [|[k v] a IH]; simpl.
  - now destruct (query_items b).
  - rewrite IH. destruct (quote_plus v), (query_items a), (query_items b);
      reflexivity.
Qed.

Lemma join_snoc (sep : str) (xs : list str) (x y : str) :
  join sep ((x :: xs) ++ [y]) = join sep (x :: xs) ++ sep ++ y.
Proof.
  revert x. induction xs as [|z xs IH]; intros x; [reflexivity|].
  change (join sep ((x :: z :: xs) ++ [y]))
    with (x ++ sep ++ join sep ((z :: xs) ++ [y])).
  rewrite IH. change (join sep (x :: z :: xs))
    with (x ++ sep ++ join sep (z :: xs)).
  now rewrite <- !app_assoc.
Qed.

Lemma calendly_embed_url_eq (SCHEDULER_URL : str) (args : Form) :
  calendly_embed_url SCHEDULER_URL args
  = let name := arg_stripped args (lit "name") in
    let email := arg_stripped args (lit "email") in
    match (if truthy name then quote_plus name else Some []),
          (if truthy email then quote_plus email else Some []) with
    | Some qn, Some qe =>
        Some (SCHEDULER_URL ++ query_separator SCHEDULER_URL ++ fixed_query
              ++ optional_item "name" name qn
              ++ optional_item "email" email qe)
    | _, _ => None
    end.
Proof.
  unfold calendly_embed_url, schedule_params, optional_item. cbv zeta.
  fold fixed_params. fold (query_separator SCHEDULER_URL).
  set (name := arg_stripped args (lit "name")).
  set (email := arg_stripped args (lit "email")).
  rewrite !query_items_app, query_items_fixed.
  destruct (truthy name); destruct (truthy email); cbn [query_items].
  - destruct (quote_plus name) as [qn|]; [|reflexivity].
    destruct (quote_plus email) as [qe|]; [|reflexivity].
    change (fixed_items ++ [lit "name" ++ lit "=" ++ qn]
                        ++ [lit "email" ++ lit "=" ++ qe])
      with ((hd [] fixed_items
             :: tl fixed_items ++ [lit "name" ++ lit "=" ++ qn])
            ++ [lit "email" ++ lit "=" ++ qe]).
    rewrite join_snoc.
    change (hd [] fixed_items
            :: tl fixed_items ++ [lit "name" ++ lit "=" ++ qn])
      with ((hd [] fixed_items :: tl fixed_items)
            ++ [lit "name" ++ lit "=" ++ qn]).
    rewrite join_snoc.
    change (hd [] fixed_items :: tl fixed_items) with fixed_items.
    rewrite join_fixed_items. now rewrite <- !app_assoc.
  - destruct (quote_plus name) as [qn|]; [|reflexivity].
    rewrite app_nil_r.
    change (fixed_items ++ [lit "name" ++ lit "=" ++ qn])
      with ((hd [] fixed_items :: tl fixed_items)
            ++ [lit "name" ++ lit "=" ++ qn]).
    rewrite join_snoc.
    change (hd [] fixed_items :: tl fixed_items) with fixed_items.
    rewrite join_fixed_items. now rewrite <- !app_assoc, !app_nil_r.
  - destruct (quote_plus email) as [qe|]; [|reflexivity].
    change (fixed_items ++ [] ++ [lit "email" ++ lit "=" ++ qe])
      with ((hd [] fixed_items :: tl fixed_items)
            ++ [lit "email" ++ lit "=" ++ qe]).
    rewrite join_snoc.
    change (hd [] fixed_items :: tl fixed_items) with fixed_items.
    rewrite join_fixed_items. reflexivity.
  - change (fixed_items ++ [] ++ []) with (fixed_items ++ []).
    rewrite !app_nil_r. now rewrite join_fixed_items.
Qed.

Lemma count_char_app (c : N) (a b : str) :
  count_char c (a ++ b) = (count_char c a + count_char c b)%nat.
Proof. unfold count_char. now rewrite List.filter_app, length_app. Qed.

Lemma count_char_quoted (c : N) (q : str) :
  quoted_char c = false → Forall (fun x => quoted_char x = true) q →
  count_char c q = 0%nat.
Proof.
  intros Hc Hq. unfold count_char.
  induction Hq as [|x q Hx _ IH]; simpl; [reflexivity|].
  destruct (N.eqb_spec c x) as [->|_]; [congruence | exact IH].
Qed.

Lemma optional_item_count (c : N) (k : string) (v q : str) :
  quoted_char c = false → Forall (fun x => quoted_char x = true) q →
  count_char c (optional_item k v q)
  = if truthy v then count_char c (lit "&" ++ lit k ++ lit "=") else 0%nat.
Proof.
  intros Hc Hq. unfold optional_item. destruct (truthy v); [|reflexivity].
  rewrite !app_assoc, count_char_app, (count_char_quoted c q Hc Hq).
  now rewrite Nat.add_0_r, <- !app_assoc.
Qed.

Section Scheduling.
Context {C : Console}.

(** [schedule] answers with the URL it has built when both debugging lines
    are written. *)
Lemma schedule_Some (SCHEDULER_URL : str) (args : Form) (url : str) :
  schedule SCHEDULER_URL args = Some url
  ↔ calendly_embed_url SCHEDULER_URL args = Some url
    ∧ py_print [lit "DEBUG SCHEDULER_URL ="; py_repr SCHEDULER_URL] = true
    ∧ py_print [lit "DEBUG EMBED URL     ="; url] = true.
Proof.
  unfold schedule.
  destruct (calendly_embed_url SCHEDULER_URL args) as [u|];
    [|split; [discriminate | now intros [? _]]].
  destruct (py_print [_; py_repr _]) eqn:Hfirst.
  - destruct (py_print [_; u]) eqn:Hsecond.
    + split; [intros [= <-]; auto | now intros [? _]].
    + split; [discriminate|]. intros ([= <-] & _ & Hlast). congruence.
  - split; [discriminate | intros (_ & [=] & _)].
Qed.

Lemma schedule_shape (SCHEDULER_URL : str) (args : Form) (url : str) :
  schedule SCHEDULER_URL args = Some url →
  let name := arg_stripped args (lit "name") in
  let email := arg_stripped args (lit "email") in
  ∃ qn qe,
    url = SCHEDULER_URL ++ query_separator SCHEDULER_URL ++ fixed_query
          ++ optional_item "name" name qn ++ optional_item "email" email qe
    ∧ (name ≠ [] → quote_plus name = Some qn)
    ∧ (email ≠ [] → quote_plus email = Some qe)
    ∧ Forall (fun c => quoted_char c = true) qn
    ∧ Forall (fun c => quoted_char c = true) qe.
Proof.
  intros [Hurl _]%schedule_Some. revert Hurl.
  rewrite calendly_embed_url_eq. cbv zeta.
  set (name := arg_stripped args (lit "name")).
  set (email := arg_stripped args (lit "email")).
  assert (Hblank : ∀ v : str, truthy v = false → v ≠ [] → False)
    by (intros v Hv Hne; apply truthy_nonempty in Hne; congruence).
  destruct (truthy name) eqn:Hn; destruct (truthy email) eqn:He.
  - destruct (quote_plus name) as [qn|] eqn:Hqn; [|discriminate].
    destruct (quote_plus email) as [qe|] eqn:Hqe; [|discriminate].
    intros [= <-]. exists qn, qe.
    repeat split; eauto using quote_plus_chars.
  - destruct (quote_plus name) as [qn|] eqn:Hqn; [|discriminate].
    intros [= <-]. exists qn, [].
    repeat split; eauto using quote_plus_chars.
    intros Hne. destruct (Hblank email He Hne).
  - destruct (quote_plus email) as [qe|] eqn:Hqe; [|discriminate].
    intros [= <-]. exists [], qe.
    repeat split; eauto using quote_plus_chars.
    intros Hne. destruct (Hblank name Hn Hne).
  - intros [= <-]. exists [], []. repeat split; auto.
    + intros Hne. destruct (Hblank name Hn Hne).
    + intros Hne. destruct (Hblank email He Hne).
Qed.

(** X15: the URL that /schedule embeds is the configured base, [?] (or [&]
    when the base already has a [?]), the five fixed display parameters,
    then [name] and [email] in this order, each present only when its
    argument is not blank and then carrying the trimmed argument quoted by
    [quote_plus]. *)
Theorem schedule_url_shape (SCHEDULER_URL : str) (args : Form) (url : str) :
  schedule SCHEDULER_URL args = Some url →
  let name := arg_stripped args (lit "name") in
  let email := arg_stripped args (lit "email") in
  ∃ qn qe,
    url = SCHEDULER_URL ++ query_separator SCHEDULER_URL ++ fixed_query
          ++ optional_item "name" name qn ++ optional_item "email" email qe
    ∧ (name ≠ [] → quote_plus name = Some qn)
    ∧ (email ≠ [] → quote_plus email = Some qe)
    ∧ Forall (fun c => quoted_char c = true) qn
    ∧ Forall (fun c => quoted_char c = true) qe.
Proof. apply schedule_shape. Qed.

(** X16: the name and the email cannot add, split or end query parameters:
    after the base and its separator the URL has exactly four [&] and five
    [=], plus one of each for a name and for an email that is not blank,
    and no [#], whatever the two arguments hold. *)
Theorem schedule_query_is_not_injectable
    (SCHEDULER_URL : str) (args : Form) (url : str) :
  schedule SCHEDULER_URL args = Some url →
  let given k := if truthy (arg_stripped args (lit k)) then 1%nat else 0%nat in
  ∃ query,
    url = SCHEDULER_URL ++ query_separator SCHEDULER_URL ++ query
    ∧ count_char 0x26 query = (4 + given "name" + given "email")%nat
    ∧ count_char 0x3D query = (5 + given "name" + given "email")%nat
    ∧ count_char 0x23 query = 0%nat.
Proof.
  intros Hurl given.
  apply schedule_shape in Hurl
    as (qn & qe & -> & _ & _ & Hqn & Hqe).
  eexists. split; [reflexivity|].
  rewrite !count_char_app, !optional_item_count by (auto; reflexivity).
  subst given. cbv beta.
  destruct (truthy (arg_stripped args (lit "name")));
    destruct (truthy (arg_stripped args (lit "email"))); repeat split.
Qed.

Lemma optional_quote_defined (v : str) :
  is_Some (if truthy v then quote_plus v else Some [])
  ↔ Forall (fun c => scalar_value c = true) v.
Proof.
  destruct v as [|c v]; [|apply quote_plus_is_Some].
  simpl. split; [constructor | now eexists].
Qed.

Lemma calendly_embed_url_defined (SCHEDULER_URL : str) (args : Form) :
  is_Some (calendly_embed_url SCHEDULER_URL args)
  ↔ Forall (fun c => scalar_value c = true) (arg_stripped args (lit "name"))
    ∧ Forall (fun c => scalar_value c = true)
        (arg_stripped args (lit "email")).
Proof.
  rewrite calendly_embed_url_eq. cbv zeta.
  rewrite <- !optional_quote_defined.
  destruct (if truthy (arg_stripped args (lit "name")) then _ else _)
    as [qn|];
    destruct (if truthy (arg_stripped args (lit "email")) then _ else _)
      as [qe|].
  - split; intros _; [split|]; now eexists.
  - split; [intros [a [=]] | intros [_ [a [=]]]].
  - split; [intros [a [=]] | intros [[a [=]] _]].
  - split; [intros [a [=]] | intros [[a [=]] _]].
Qed.

(** X17: /schedule answers exactly when the trimmed name and email hold
    only code points that UTF-8 can encode and standard output takes the
    two debugging lines, the second of which carries the URL that was
    built; with both arguments absent or blank that URL is the base, the
    separator and the five fixed parameters only. *)
Theorem schedule_defined (SCHEDULER_URL : str) (args : Form) :
  let name := arg_stripped args (lit "name") in
  let email := arg_stripped args (lit "email") in
  let printed url :=
    py_print [lit "DEBUG SCHEDULER_URL ="; py_repr SCHEDULER_URL] = true
    ∧ py_print [lit "DEBUG EMBED URL     ="; url] = true in
  (is_Some (schedule SCHEDULER_URL args)
   ↔ Forall (fun c => scalar_value c = true) name
     ∧ Forall (fun c => scalar_value c = true) email
     ∧ ∀ url, calendly_embed_url SCHEDULER_URL args = Some url → printed url)
  ∧ (name = [] → email = [] →
     ∀ url,
       schedule SCHEDULER_URL args = Some url
       ↔ url = SCHEDULER_URL ++ query_separator SCHEDULER_URL ++ fixed_query
         ∧ printed url).
Proof.
  intros name email printed. split.
  - pose proof (calendly_embed_url_defined SCHEDULER_URL args) as Hbuilt.
    fold name email in Hbuilt. split.
    + intros [url Hurl]. pose proof Hurl as (Hsome & Hlines)%schedule_Some.
      assert (Hscalar : is_Some (calendly_embed_url SCHEDULER_URL args))
        by (now exists url).
      apply Hbuilt in Hscalar as [Hname Hemail].
      split; [exact Hname|]. split; [exact Hemail|].
      intros u Hu. rewrite Hsome in Hu. now injection Hu as <-.
    + intros (Hname & Hemail & Hlines).
      destruct (proj2 Hbuilt (conj Hname Hemail)) as [url Hurl].
      exists url. apply schedule_Some. split; [exact Hurl|].
      exact (Hlines url Hurl).
  - intros Hname Hemail url. rewrite schedule_Some.
    rewrite calendly_embed_url_eq. cbv zeta. fold name email.
    rewrite Hname, Hemail. cbn [truthy optional_item app].
    rewrite !app_nil_r. subst printed. cbv beta. split.
    + now intros ([= <-] & Hlines).
    + now intros (-> & Hlines).
Qed.

Lemma redirect_args_stripped (name email : str) :
  arg_stripped (redirect_args (UrlSchedule name email)) (lit "name")
  = strip name
  ∧ arg_stripped (redirect_args (UrlSchedule name email)) (lit "email")
    = strip email.
Proof.
  unfold arg_stripped.
  change (form_lookup (redirect_args (UrlSchedule name email)) (lit "name"))
    with (Some name).
  change (form_lookup (redirect_args (UrlSchedule name email)) (lit "email"))
    with (Some email).
  cbv beta iota. now rewrite !py_or_empty.
Qed.

(** X18: a lead form that is accepted, on a table with a rowid left,
    redirects to /schedule with the trimmed name and email, and /schedule,
    given these arguments and a standard output that takes its two
    debugging lines, embeds the base URL, the separator, the five fixed
    parameters and then [&name=] and [&email=] with the two values
    quoted. *)
Theorem accepted_lead_reaches_schedule
    (SCHEDULER_URL : str) (form : Form) (now : str) (db : DB) (qn qe : str) :
  submitted form "full_name" ≠ [] →
  submitted form "email" ≠ [] →
  submitted form "address" ≠ [] →
  quote_plus (submitted form "full_name") = Some qn →
  quote_plus (submitted form "email") = Some qe →
  rowid_exhausted (home_eval_leads_seq db) (Lead.id <$> home_eval_leads db)
  = false →
  let url := SCHEDULER_URL ++ query_separator SCHEDULER_URL ++ fixed_query
             ++ lit "&name=" ++ qn ++ lit "&email=" ++ qe in
  py_print [lit "DEBUG SCHEDULER_URL ="; py_repr SCHEDULER_URL] = true →
  py_print [lit "DEBUG EMBED URL     ="; url] = true →
  ∃ u,
    response (home_evaluation POST form now db) = Redirect u
    ∧ schedule SCHEDULER_URL (redirect_args u) = Some url.
Proof.
  intros Hn He Ha Hqn Hqe Hroom url Hfirst Hsecond.
  exists (UrlSchedule (submitted form "full_name") (submitted form "email")).
  split.
  - rewrite home_evaluation_eq. cbn [is_post].
    apply truthy_nonempty in Hn, He, Ha. rewrite Hn, He, Ha.
    cbn [negb orb]. unfold insert_lead.
    change (List.map Lead.id (home_eval_leads db))
      with (Lead.id <$> home_eval_leads db).
    now rewrite Hroom.
  - apply schedule_Some. split; [|split; assumption].
    rewrite calendly_embed_url_eq. cbv zeta.
    destruct (redirect_args_stripped (submitted form "full_name")
                (submitted form "email")) as [-> ->].
    unfold submitted in *. rewrite !strip_idemp.
    apply truthy_nonempty in Hn, He. rewrite Hn, He, Hqn, Hqe.
    unfold optional_item. rewrite Hn, He. subst url.
    now rewrite <- !app_assoc.
Qed.

End Scheduling.

Lemma lstrip_slash_head (s : str) :
  match lstrip_slash s with
  | c :: _ => c ≠ 0x2F%N
  | [] => True
  end.
Proof.
  induction s as [|c s IH]; simpl; [exact I|].
  destruct (N.eqb_spec c 0x2F%N); [exact IH | assumption].
Qed.

(** X19: whatever the environment holds, the configured [SCHEDULER_URL] is
    not empty and does not end with a slash; it is the built-in Calendly
    address when the variable is unset. *)
Theorem scheduler_url_usable (env : option str) :
  scheduler_url env ≠ []
  ∧ last (scheduler_url env) ≠ Some 0x2F%N
  ∧ scheduler_url None = default_scheduler_url.
Proof.
  split; [|split; [|reflexivity]].
  - unfold scheduler_url. cbv zeta.
    destruct (truthy _) eqn:Hurl; [now apply truthy_nonempty|discriminate].
  - unfold scheduler_url. cbv zeta.
    destruct (truthy _) eqn:Hurl; [|vm_compute; discriminate].
    unfold rstrip_slash in *.
    pose proof (lstrip_slash_head
                  (rev (strip match env with Some v => v | None => [] end)))
      as Hhead.
    destruct (lstrip_slash _) as [|c rest]; [discriminate|].
    simpl. rewrite last_snoc. congruence.
Qed.

(** X20: GET /blog/<slug> aborts with 404 exactly when no post with this
    slug is published. *)
Theorem blog_post_404_iff {L : Libraries} (db : DB) (slug : str) :
  blog_post db slug = Abort 404
  ↔ ∀ p, p ∈ posts db → Post.slug p = slug → Post.published p ≠ 1.
Proof.
  unfold blog_post, select_published.
  destruct (List.find _ _) as [q|] eqn:Hfind; simpl.
  - apply find_Some_elem in Hfind as [Hq Htest].
    apply andb_true_iff in Htest as [Hslug Hpub].
    apply str_eqb_eq in Hslug. apply Z.eqb_eq in Hpub. split.
    + destruct (negb _ && _); discriminate.
    + intros Hnone. destruct (Hnone q Hq Hslug Hpub).
  - split; [|reflexivity]. intros _ p Hp Hslug Hpub.
    pose proof (find_none _ _ Hfind p (proj1 (list_elem_of_In _ _) Hp))
      as Hno.
    cbv beta in Hno. apply andb_false_iff in Hno as [Hno|Hno].
    + apply str_eqb_neq in Hno. contradiction.
    + apply Z.eqb_neq in Hno. contradiction.
Qed.

(** ** The further properties on concrete requests *)

Lemma admin_blog_new_blank_rejected_witness :
  let r := admin_blog_new (L := Sample.libraries) (S := Sample.settings)
             POST Scenario.blank_content_form Sample.now Sample.db1 in
  submitted Scenario.blank_content_form "content_md" = []
  ∧ db_after r = Sample.db1
  ∧ flashed r = [lit "Title and content are required."].
Proof.
  intros r. split; [reflexivity|].
  destruct (admin_blog_new_blank_rejected
              (L := Sample.libraries) (S := Sample.settings)
              Scenario.blank_content_form Sample.now Sample.db1 eq_refl
              (or_intror eq_refl))
    as (Hdb & _ & Hflash).
  split; [exact Hdb | exact Hflash].
Defined.

Lemma write_needs_post_and_password_witness :
  let req := ToAdminBlogNew POST Sample.new_post_form in
  db_after (dispatch (L := Sample.libraries) (S := Sample.settings)
              req Sample.now Sample.db1) ≠ Sample.db1
  ∧ request_method req = POST
  ∧ may_write (S := Sample.settings) req.
Proof.
  intros req.
  assert (Hchanged :
    db_after (dispatch (L := Sample.libraries) (S := Sample.settings)
                req Sample.now Sample.db1) ≠ Sample.db1).
  { intros Heq. apply (f_equal posts_seq) in Heq. discriminate Heq. }
  split; [exact Hchanged|].
  exact (write_needs_post_and_password
           (L := Sample.libraries) (S := Sample.settings)
           req Sample.now Sample.db1 Hchanged).
Defined.

Lemma admin_blog_edit_unknown_id_witness :
  sqlite_integer 9
  ∧ admin_blog_edit (L := Sample.libraries) (S := Sample.settings)
      9 POST Sample.new_post_form Sample.now Sample.db1
    = mkReply (Render NotFoundPage 404) [] Sample.db1.
Proof.
  assert (Hint : sqlite_integer 9) by (unfold sqlite_integer, MAX_ROWID; lia).
  split; [exact Hint|].
  apply (admin_blog_edit_unknown_id
           (L := Sample.libraries) (S := Sample.settings) 9 POST
           Sample.new_post_form Sample.now Sample.db1 Hint).
  intros p Hp. cbn [posts Sample.db1] in Hp.
  rewrite !elem_of_cons, elem_of_nil in Hp.
  destruct Hp as [->|[->|[->|[]]]]; discriminate.
Defined.

Lemma admin_blog_edit_shows_stored_row_witness :
  db_ok Sample.db1
  ∧ admin_blog_edit (L := Sample.libraries) (S := Sample.settings)
      (Post.id Sample.draft2) GET [] Sample.now Sample.db1
    = mkReply
        (Render (AdminPostEditPage (FormRow Sample.draft2) ModeEdit
                                   (Some Sample.draft2)) 200)
        [] Sample.db1.
Proof.
  assert (Hok : db_ok Sample.db1)
    by (apply (bool_decide_unpack _); vm_compute; exact I).
  split; [exact Hok|].
  apply (admin_blog_edit_shows_stored_row
           (L := Sample.libraries) (S := Sample.settings)
           Sample.draft2 GET [] Sample.now Sample.db1 Hok);
    [cbn [posts Sample.db1]; repeat constructor | discriminate].
Defined.

Lemma admin_post_without_password_setting_witness :
  admin_blog_new (L := Sample.libraries) (S := Scenario.unconfigured)
    POST Sample.new_post_form Sample.now Sample.db1
  = mkReply (Raise NameError) [] Sample.db1.
Proof.
  exact (proj1 (admin_post_without_password_setting
                  (L := Sample.libraries) (S := Scenario.unconfigured)
                  1 Sample.new_post_form Sample.now Sample.db1 eq_refl)).
Defined.

Lemma created_post_behind_redirect_witness :
  let r := admin_blog_new (L := Sample.libraries) (S := Sample.settings)
             POST Sample.new_post_form Sample.now Sample.db1 in
  response r = Redirect (UrlBlogPost (lit "spring-listings"))
  ∧ ∃ p, posts (db_after r) = posts Sample.db1 ++ [p]
         ∧ select_published (db_after r) (Post.slug p) = Some (detail_of p).
Proof.
  intros r.
  assert (H1 : response r = Redirect (UrlBlogPost (lit "spring-listings")))
    by reflexivity.
  split; [exact H1|].
  destruct (created_post_behind_redirect
              (L := Sample.libraries) (S := Sample.settings)
              POST Sample.new_post_form Sample.now Sample.db1 _ H1)
    as (p & Hrows & _ & _ & _ & Hpub).
  exists p. split; [exact Hrows | exact (proj1 (Hpub eq_refl))].
Defined.

Lemma edited_post_behind_redirect_witness :
  let r := admin_blog_edit (L := Sample.libraries) (S := Sample.settings)
             1 POST Scenario.same_title_form Sample.now Sample.db1 in
  response r = Redirect (UrlBlogPost (lit "open-house"))
  ∧ ∃ row, select_by_id Sample.db1 1 = Some row
           ∧ select_published (db_after r) (lit "open-house")
             = Some (detail_of
                       (set_submitted (L := Sample.libraries)
                          Scenario.same_title_form Sample.now row)).
Proof.
  intros r.
  assert (H1 : response r = Redirect (UrlBlogPost (lit "open-house")))
    by reflexivity.
  split; [exact H1|].
  destruct (edited_post_behind_redirect
              (L := Sample.libraries) (S := Sample.settings)
              1 POST Scenario.same_title_form Sample.now Sample.db1 _ H1)
    as (row & Hrow & _ & _ & Hpub).
  exists row. split; [exact Hrow | exact (Hpub eq_refl)].
Defined.

Lemma admin_blog_edit_slug_collision_witness :
  Post.slug Sample.draft2
  = slugify (Libraries := Sample.libraries)
      (submitted Scenario.rename_to_draft_form "title")
  ∧ admin_blog_edit (L := Sample.libraries) (S := Sample.settings)
      1 POST Scenario.rename_to_draft_form Sample.now Sample.db1
    = mkReply (Raise IntegrityError) [] Sample.db1.
Proof.
  split; [reflexivity|].
  apply (admin_blog_edit_slug_collision
           (L := Sample.libraries) (S := Sample.settings)
           1 Scenario.rename_to_draft_form Sample.now Sample.db1
           Sample.post1 Sample.draft2);
    [ reflexivity | reflexivity
    | cbn [posts Sample.db1]; repeat constructor
    | discriminate | reflexivity ].
Defined.

Lemma admin_blog_edit_keeps_own_slug_witness :
  db_ok Sample.db1
  ∧ response (admin_blog_edit (L := Sample.libraries) (S := Sample.settings)
                (Post.id Sample.post1) POST Scenario.same_title_form
                Sample.now Sample.db1)
    = Redirect (UrlBlogPost (Post.slug Sample.post1)).
Proof.
  assert (Hok : db_ok Sample.db1)
    by (apply (bool_decide_unpack _); vm_compute; exact I).
  split; [exact Hok|].
  apply (admin_blog_edit_keeps_own_slug
           (L := Sample.libraries) (S := Sample.settings)
           Sample.post1 Scenario.same_title_form Sample.now Sample.db1 Hok);
    [cbn [posts Sample.db1]; repeat constructor | reflexivity | reflexivity].
Defined.

Lemma quote_plus_alphabet_witness :
  quote_plus (lit "Ann & Lee+") = Some (lit "Ann+%26+Lee%2B")
  ∧ Forall (fun c => quoted_char c = true) (lit "Ann+%26+Lee%2B").
Proof.
  assert (Hq : quote_plus (lit "Ann & Lee+") = Some (lit "Ann+%26+Lee%2B"))
    by reflexivity.
  split; [exact Hq|].
  exact (quote_plus_alphabet (lit "Ann & Lee+") (lit "Ann+%26+Lee%2B") Hq).
Defined.

Example quote_plus_of_colour : quote_plus (lit "F7F7F7") = Some (lit "F7F7F7").
Proof. apply quote_plus_safe_unchanged. repeat constructor. Qed.

Lemma schedule_url_shape_witness :
  let base := lit "https://example.org/book" in
  ∃ url qn qe,
    schedule (C := Scenario.console) base Scenario.schedule_args = Some url
    ∧ url = base ++ query_separator base ++ fixed_query
            ++ optional_item "name" (lit "Ann & Lee") qn
            ++ optional_item "email" (lit "ann@example.org") qe.
Proof.
  intros base.
  destruct (schedule (C := Scenario.console) base Scenario.schedule_args)
    as [url|] eqn:Hurl; [|discriminate Hurl].
  destruct (schedule_url_shape base Scenario.schedule_args url Hurl)
    as (qn & qe & Hshape & _).
  exists url, qn, qe. split; [reflexivity | exact Hshape].
Defined.

Lemma schedule_query_is_not_injectable_witness :
  let base := lit "https://example.org/book" in
  ∃ url query,
    schedule (C := Scenario.console) base Scenario.schedule_args = Some url
    ∧ url = base ++ query_separator base ++ query
    ∧ count_char 0x26 query = 6%nat.
Proof.
  intros base.
  destruct (schedule (C := Scenario.console) base Scenario.schedule_args)
    as [url|] eqn:Hurl; [|discriminate Hurl].
  destruct (schedule_query_is_not_injectable
              base Scenario.schedule_args url Hurl)
    as (query & Hsplit & Hamp & _).
  exists url, query. split; [reflexivity|]. split; [exact Hsplit | exact Hamp].
Defined.

Lemma accepted_lead_reaches_schedule_witness :
  let base := lit "https://example.org/book?x=1" in
  ∃ u,
    response (home_evaluation POST Scenario.lead_form Sample.now init_db)
    = Redirect u
    ∧ schedule (C := Scenario.console) base (redirect_args u)
      = Some (base ++ lit "&" ++ fixed_query ++ lit "&name=Ann+Lee"
              ++ lit "&email=ann%40example.org").
Proof.
  intros base.
  apply (accepted_lead_reaches_schedule (C := Scenario.console)
           base Scenario.lead_form Sample.now
           init_db (lit "Ann+Lee") (lit "ann%40example.org"));
    [ discriminate | discriminate | discriminate | reflexivity | reflexivity
    | reflexivity | reflexivity | reflexivity ].
Defined.

Lemma served_database_consistent_witness :
  consistent (L := Sample.libraries)
    (serve (L := Sample.libraries) (S := Sample.settings)
           Scenario.served init_db)
  ∧ length (posts (serve (L := Sample.libraries) (S := Sample.settings)
                         Scenario.served init_db)) = 1%nat
  ∧ length (home_eval_leads
              (serve (L := Sample.libraries) (S := Sample.settings)
                     Scenario.served init_db)) = 1%nat.
Proof.
  split; [apply served_database_consistent|]. split; reflexivity.
Defined.

(** X22: nothing detects a repeated submission: on a table with two
    rowids left, the same accepted lead form sent twice is stored as two
    rows, alike in every submitted field, under two different ids and with
    the two clock readings. *)
Theorem repeated_lead_is_stored_twice
    (form : Form) (now1 now2 : str) (db : DB) :
  submitted form "full_name" ≠ [] →
  submitted form "email" ≠ [] →
  submitted form "address" ≠ [] →
  Z.max (home_eval_leads_seq db) (max_rowid (Lead.id <$> home_eval_leads db))
  < MAX_ROWID - 1 →
  let db1 := db_after (home_evaluation POST form now1 db) in
  let db2 := db_after (home_evaluation POST form now2 db1) in
  ∃ l1 l2,
    home_eval_leads db2 = home_eval_leads db ++ [l1; l2]
    ∧ Lead.id l1 < Lead.id l2 ≤ MAX_ROWID
    ∧ Lead.created_at l1 = now1 ∧ Lead.created_at l2 = now2
    ∧ Lead.full_name l1 = Lead.full_name l2
    ∧ Lead.email l1 = Lead.email l2
    ∧ Lead.phone l1 = Lead.phone l2
    ∧ Lead.address l1 = Lead.address l2
    ∧ Lead.property_type l1 = Lead.property_type l2
    ∧ Lead.timeframe l1 = Lead.timeframe l2
    ∧ Lead.notes l1 = Lead.notes l2.
Proof.
  intros Hn He Ha Hleft db1 db2. subst db2 db1.
  rewrite !home_evaluation_eq. cbn [is_post].
  apply truthy_nonempty in Hn, He, Ha. rewrite Hn, He, Ha.
  cbn [negb orb].
  assert (Hroom1 :
    rowid_exhausted (home_eval_leads_seq db)
      (Lead.id <$> home_eval_leads db) = false)
    by (unfold rowid_exhausted; apply Z.leb_gt; lia).
  unfold insert_lead at 2.
  change (List.map Lead.id (home_eval_leads db))
    with (Lead.id <$> home_eval_leads db).
  rewrite Hroom1. cbn [db_after]. unfold insert_lead.
  cbn [home_eval_leads home_eval_leads_seq].
  change (List.map Lead.id ?l) with (Lead.id <$> l).
  rewrite fmap_app. cbn [fmap list_fmap Lead.id].
  set (ids := Lead.id <$> home_eval_leads db) in *.
  set (seq := home_eval_leads_seq db) in *.
  assert (Hmax : Z.max (next_rowid seq ids)
                   (max_rowid (ids ++ [next_rowid seq ids]))
                 = next_rowid seq ids).
  { rewrite max_rowid_app.
    change (max_rowid [?x]) with (Z.max x 0).
    pose proof (max_rowid_nonneg ids). unfold next_rowid. lia. }
  assert (Hroom2 :
    rowid_exhausted (next_rowid seq ids) (ids ++ [next_rowid seq ids]) = false).
  { unfold rowid_exhausted. rewrite Hmax. apply Z.leb_gt.
    unfold next_rowid. lia. }
  rewrite Hroom2. cbn [db_after home_eval_leads].
  eexists _, _. split; [now rewrite <- app_assoc|].
  cbn [Lead.id Lead.full_name Lead.email Lead.phone Lead.address
       Lead.property_type Lead.timeframe Lead.notes Lead.created_at].
  split; [|repeat split].
  assert (Hnext : next_rowid (next_rowid seq ids) (ids ++ [next_rowid seq ids])
                  = next_rowid seq ids + 1)
    by (unfold next_rowid at 1; now rewrite Hmax).
  rewrite Hnext. unfold next_rowid. lia.
Qed.

Lemma repeated_lead_is_stored_twice_witness :
  let db1 := db_after (home_evaluation POST Scenario.lead_form
                         (lit "2024-06-01T10:00:00") init_db) in
  let db2 := db_after (home_evaluation POST Scenario.lead_form
                         (lit "2024-06-01T10:00:05") db1) in
  ∃ l1 l2, home_eval_leads db2 = [l1; l2] ∧ Lead.id l1 < Lead.id l2.
Proof.
  intros db1 db2.
  destruct (repeated_lead_is_stored_twice Scenario.lead_form
              (lit "2024-06-01T10:00:00") (lit "2024-06-01T10:00:05") init_db)
    as (l1 & l2 & Hrows & [Hlt _] & _);
    [discriminate | discriminate | discriminate | reflexivity |].
  exists l1, l2. split; [exact Hrows | exact Hlt].
Defined.
